(** * Pyriod: the signal solution engine of [Pyriod/Pyriod.py]

    A shallow embedding of the parts of class [Pyriod] that own the signal
    table ([self.values]), the combination-frequency resolver, the two-phase
    fit with its post-fit normalisation, the derived series and periodograms,
    the frequency grid built in [__init__] and the click handling of the
    periodogram canvas.

    Conventions of the embedding.
    - A method of [Pyriod] is an action of the monad [M]: a function from
      the state to an outcome and a new state.  An exception keeps the
      state reached when it was raised, as in Python.
    - The pandas frame [self.values] is an ordered list of labelled rows;
      labels may repeat, as pandas allows.  A cell of the columns [freq],
      [amp] and [phase] holds a Python number; the column [freq] has
      dtype object and keeps what the caller passed, an int included.
    - Numbers are read through an interface [Num] whose operations stand
      for the operations of Python on them, on floats those of IEEE
      doubles; no law of arithmetic is assumed of them.  The interface is
      instantiated with binary64 floats, and, for examples in which every
      number is a float with a short binary expansion (3.0, 3.5, 8.0),
      with exact rationals.
    - The state comes in two layers.  The object layer is the object
      without its widgets: the table, the four series, the grid and the
      three periodograms.  The layer [Gui] adds the frame of the table
      widget and the other widgets, and has the methods in full.
    - What belongs to other libraries (pandas, qgrid, ipywidgets, lmfit,
      lightkurve, the builtins [eval] and [str]) is a parameter of the
      methods that call it.  Logging is left out: it changes no attribute
      that is modelled here. *)

From Stdlib Require Import List String Ascii Bool Arith ZArith Lia.
From Stdlib Require Import QArith Qround Qreduction Qabs Lqa.
From Stdlib Require Floats.
From Stdlib Require Import Sorted Permutation.
From Stdlib Require Import DecimalString.
From Stdlib Require DecimalNat DecimalFacts.
Import ListNotations.

Close Scope Q_scope.
Open Scope string_scope.
Open Scope list_scope.

(** ** Outcomes and the state-and-exception monad *)

Inductive exn : Type :=
| NameError | SyntaxError | ZeroDivisionError | TypeError | KeyError | ValueError.

Inductive result (A : Type) : Type :=
| Ok (a : A)
| Raise (e : exn).
Arguments Ok {A} a.
Arguments Raise {A} e.

Definition M (S A : Type) : Type := S -> result A * S.

Definition ret {S A} (a : A) : M S A := fun s => (Ok a, s).

Definition bind {S A B} (c : M S A) (k : A -> M S B) : M S B :=
  fun s => match c s with
           | (Ok a, s') => k a s'
           | (Raise e, s') => (Raise e, s')
           end.

Definition raise {S A} (e : exn) : M S A := fun s => (Raise e, s).
Definition get {S} : M S S := fun s => (Ok s, s).
Definition put {S} (s : S) : M S unit := fun _ => (Ok tt, s).

Definition lift {S A} (r : result A) : M S A := fun s => (r, s).

Declare Scope py_scope.
Delimit Scope py_scope with py.
Notation "x <- c ;; k" := (bind c (fun x => k))
  (at level 61, c at next level, right associativity) : py_scope.
Notation "c ;;; k" := (bind c (fun _ => k))
  (at level 61, right associativity) : py_scope.
Open Scope py_scope.

(** [for x in xs: body x] *)
Fixpoint for_each {S A} (xs : list A) (body : A -> M S unit) : M S unit :=
  match xs with
  | [] => ret tt
  | x :: xs' => body x ;;; for_each xs' body
  end.

(** ** Numbers *)

Class Num (num : Type) : Type := {
  of_Z : Z -> num;
  nadd : num -> num -> num;
  nsub : num -> num -> num;
  nmul : num -> num -> num;
  ndiv : num -> num -> num;
  nopp : num -> num;
  nltb : num -> num -> bool;
  neqb : num -> num -> bool;
  (** [x % 1.] *)
  nmod1 : num -> num
}.

(** The literal [0.5]. *)
Definition half {num} `{Num num} : num := ndiv (of_Z 1) (of_Z 2).

(** [np.sin] and [np.pi]. *)
Class Trig (num : Type) : Type := {
  np_sin : num -> num;
  np_pi : num
}.

(** Exact rationals, kept in lowest terms so that equal numbers are equal
    terms. *)
#[export] Instance Q_Num : Num Q := {|
  of_Z := inject_Z;
  nadd := fun x y => Qred (Qplus x y);
  nsub := fun x y => Qred (Qminus x y);
  nmul := fun x y => Qred (Qmult x y);
  ndiv := fun x y => Qred (Qdiv x y);
  nopp := fun x => Qred (Qopp x);
  nltb := fun x y => negb (Qle_bool y x);
  neqb := Qeq_bool;
  nmod1 := fun x => Qred (Qminus x (inject_Z (Qfloor x)))
|}.

(** ** The signal table [self.values] *)

(** One row of the frame.  The error columns hold NaN ([None]) until a fit
    fills them.  The column [combo] is declared by the class but never
    written; it is left out. *)
Record row (num : Type) : Type := mkRow {
  include : bool;
  freq : num;
  fixfreq : bool;
  freqerr : option num;
  amp : num;
  fixamp : bool;
  amperr : option num;
  phase : num;
  fixphase : bool;
  phaseerr : option num
}.
Arguments mkRow {num}.
Arguments include {num}.
Arguments freq {num}.
Arguments fixfreq {num}.
Arguments freqerr {num}.
Arguments amp {num}.
Arguments fixamp {num}.
Arguments amperr {num}.
Arguments phase {num}.
Arguments fixphase {num}.
Arguments phaseerr {num}.

Definition table (num : Type) : Type := list (string * row num).

(** [self.values.index] *)
Definition index_of {num} (t : table num) : list string := map fst t.

(** [key in self.values.index] *)
Definition in_index {num} (key : string) (t : table num) : bool :=
  existsb (String.eqb key) (index_of t).

(** Rows labelled [key]. *)
Definition rows_at {num} (key : string) (t : table num) : list (row num) :=
  map snd (filter (fun kr => String.eqb key (fst kr)) t).

(** [self.values.loc[key, col]] read as a scalar: with no row the lookup
    raises [KeyError]; with several rows pandas returns a Series, which the
    callers ([float], [str] followed by [eval], a parameter value) cannot
    use as a number. *)
Definition loc {num A} (key : string) (col : row num -> A) (t : table num)
  : result A :=
  match rows_at key t with
  | [r] => Ok (col r)
  | [] => Raise KeyError
  | _ => Raise TypeError
  end.

(** [self.values.loc[key, col] = v], written as a row update: every row
    labelled [key] is updated. *)
Definition loc_set {num} (key : string) (upd : row num -> row num)
  (t : table num) : table num :=
  map (fun kr => if String.eqb key (fst kr) then (fst kr, upd (snd kr)) else kr) t.

(** [self.values.index[self.values.include]] *)
Definition included {num} (t : table num) : list string :=
  index_of (filter (fun kr => include (snd kr)) t).

(** [df.drop(indices)]: every label must be present, and all rows bearing
    one of the labels go. *)
Definition drop {num} (indices : list string) (t : table num)
  : result (table num) :=
  if forallb (fun i => in_index i t) indices
  then Ok (filter (fun kr => negb (existsb (String.eqb (fst kr)) indices)) t)
  else Raise KeyError.

(** ** Series and the object state *)

Record series (num : Type) : Type := mkSeries {
  time : list num;
  flux : list num
}.
Arguments mkSeries {num}.
Arguments time {num}.
Arguments flux {num}.

(** The mutable attributes of a [Pyriod] object. *)
Record Pyriod (num : Type) : Type := mkPyriod {
  lc_orig : series num;
  lc_model_sampled : series num;
  lc_model_observed : series num;
  lc_resid : series num;
  freqs : list num;
  per_orig : list num;
  per_model : list num;
  per_resid : list num;
  values : table num
}.
Arguments mkPyriod {num}.
Arguments lc_orig {num}.
Arguments lc_model_sampled {num}.
Arguments lc_model_observed {num}.
Arguments lc_resid {num}.
Arguments freqs {num}.
Arguments per_orig {num}.
Arguments per_model {num}.
Arguments per_resid {num}.
Arguments values {num}.

Definition set_values {num} (t : table num) (self : Pyriod num) : Pyriod num :=
  mkPyriod (lc_orig self) (lc_model_sampled self) (lc_model_observed self)
           (lc_resid self) (freqs self) (per_orig self) (per_model self)
           (per_resid self) t.

(** ["{}".format(n)] for a length. *)
Definition format_nat (n : nat) : string :=
  NilEmpty.string_of_uint (Nat.to_uint n).

(** ** Strings: [re.split], [str.replace] *)

Definition is_operator (c : ascii) : bool :=
  (Ascii.eqb c "+" || Ascii.eqb c "-" || Ascii.eqb c "*" || Ascii.eqb c "/")%bool.

(** [re.split('\+|\-|\*|\/', s)]: the pieces between operator characters,
    empty pieces included. *)
Fixpoint re_split (s : string) : list string :=
  match s with
  | EmptyString => [EmptyString]
  | String c s' =>
      if is_operator c then EmptyString :: re_split s'
      else match re_split s' with
           | p :: ps => String c p :: ps
           | [] => [String c EmptyString]
           end
  end.

(** [s.replace(old, new)]: all non-overlapping occurrences, leftmost first.
    [skip] counts the characters of a matched occurrence still to be
    dropped. *)
Fixpoint replace_from (old new s : string) (skip : nat) : string :=
  match s with
  | EmptyString =>
      match old with EmptyString => new | _ => EmptyString end
  | String c s' =>
      match skip with
      | S k => replace_from old new s' k
      | O =>
          if prefix old s then
            match old with
            | EmptyString => (new ++ String c (replace_from old new s' 0))%string
            | String _ old' =>
                (new ++ replace_from old new s' (String.length old'))%string
            end
          else String c (replace_from old new s' 0)
      end
  end.

Definition replace (old new s : string) : string := replace_from old new s 0.

Definition is_digit (c : ascii) : bool :=
  let n := nat_of_ascii c in (48 <=? n)%nat && (n <=? 57)%nat.

Section Engine.
Context {num : Type} `{Num num}.

(** [self.amp_conversion], fixed at construction. *)
Variable amp_conversion : num.

(** [add_signal], lines 485-497: the row is built and appended.  Nothing
    is checked about [freq].  The rest of the method refreshes the widgets;
    the method in full is [Gui.add_signal]. *)
Definition add_signal (freq : num) (amp phase : option num)
  (fixfreq fixamp fixphase include : bool) (index : option string)
  : M (Pyriod num) unit :=
  let amp := match amp with None => of_Z 1 | Some a => a end in
  let phase := match phase with None => half | Some p => p end in
  self <- get ;;
  let index := match index with
               | None => ("f" ++ format_nat (List.length (values self)))%string
               | Some i => i
               end in
  let toappend :=
    [(index, mkRow include freq fixfreq None (ndiv amp amp_conversion)
                   fixamp None phase fixphase None)] in
  put (set_values (values self ++ toappend) self).

(** [delete_rows], line 684: the rows are dropped from the table.  The
    method in full, which drops them from the widget frame too, is
    [Gui.delete_rows]. *)
Definition delete_rows (indices : list string) : M (Pyriod num) unit :=
  self <- get ;;
  t <- lift (drop indices (values self)) ;;
  put (set_values t self).

(** *** The fit *)

Context `{Trig num}.

(** The order in which a Python [set] built from these strings is
    iterated.  It depends on the hashes of the strings, which change from
    one interpreter run to the next. *)
Variable set_order : list string -> list string.

(** [self.freq_conversion] and [self.tshift], fixed at construction. *)
Variable freq_conversion : num.
Variable tshift : num.

(** A parameter of the solver library: value, [vary] flag, constraint
    expression and standard error.  A value or an error that the library
    left unset is [None]. *)
Record parameter : Type := mkParam {
  value : option num;
  vary : bool;
  expr : option string;
  stderr : option num
}.

(** [Parameters] is an ordered dictionary. *)
Definition Parameters : Type := list (string * parameter).

Fixpoint dict_get {A} (name : string) (d : list (string * A)) : result A :=
  match d with
  | [] => Raise KeyError
  | (k, v) :: d' => if String.eqb name k then Ok v else dict_get name d'
  end.

Fixpoint dict_set {A} (name : string) (v : A) (d : list (string * A))
  : list (string * A) :=
  match d with
  | [] => [(name, v)]
  | (k, w) :: d' =>
      if String.eqb name k then (k, v) :: d' else (k, w) :: dict_set name v d'
  end.

(** What [model.fit] hands back. *)
Record ModelResult : Type := mkModelResult {
  success : bool;
  params : Parameters
}.

(** [series.to_periodogram(normalization='amplitude', frequency=freqs)
    .power.value] of the light-curve library. *)
Variable to_periodogram : series num -> list num -> list num.

(** [sin] (lines 99-101). *)
Definition sin_model (x freq amp phase : num) : num :=
  nmul amp (np_sin (nmul (nmul (of_Z 2) np_pi) (nadd (nmul freq x) phase))).

(** [np.mean] *)
Definition mean (l : list num) : num :=
  ndiv (fold_left nadd l (of_Z 0)) (of_Z (Z.of_nat (List.length l))).

(** [key[1:].isdigit()] *)
Definition isindep (key : string) : bool :=
  match key with
  | EmptyString => false
  | String _ rest =>
      match rest with
      | EmptyString => false
      | _ => forallb is_digit (list_ascii_of_string rest)
      end
  end.

(** The three parameters that [make_params] and the [set] calls leave for
    one signal. *)
Definition set_signal (pre : string) (f : parameter) (a p : num)
  (fixa fixp : bool) (ps : Parameters) : Parameters :=
  dict_set (pre ++ "phase")%string (mkParam (Some p) (negb fixp) None None)
    (dict_set (pre ++ "amp")%string (mkParam (Some a) (negb fixa) None None)
       (dict_set (pre ++ "freq")%string f ps)).

(** The expression of a combination with every key [k] replaced by
    [k ++ "freq"] (lines 561-565); the keys are a set. *)
Definition link_expression (t : table num) (prefix : string) : string :=
  let parts := re_split prefix in
  let keys := set_order (filter (fun part => in_index part t) parts) in
  fold_left (fun e key => replace key (key ++ "freq")%string e) keys prefix.

(** The first loop of [fit_model] (lines 547-570): the parameters with
    every frequency held, the prefix map and the model's prefixes. *)
Fixpoint build_params (t : table num) (prefixes : list string) (cnum : nat)
  (ps : Parameters) (prefixmap : list (string * string))
  : result (Parameters * list (string * string)) :=
  match prefixes with
  | [] => Ok (ps, prefixmap)
  | prefix :: rest =>
      match loc prefix freq t, loc prefix amp t, loc prefix phase t,
            loc prefix fixamp t, loc prefix fixphase t with
      | Ok f, Ok a, Ok p, Ok fixa, Ok fixp =>
          if isindep prefix then
            build_params t rest cnum
              (set_signal prefix
                 (mkParam (Some (nmul freq_conversion f)) false None None)
                 a p fixa fixp ps)
              (dict_set prefix prefix prefixmap)
          else
            let useprefix := ("c" ++ format_nat cnum)%string in
            build_params t rest (S cnum)
              (set_signal useprefix
                 (mkParam None false (Some (link_expression t prefix)) None)
                 a p fixa fixp ps)
              (dict_set prefix useprefix prefixmap)
      | Raise e, _, _, _, _ => Raise e
      | _, Raise e, _, _, _ => Raise e
      | _, _, Raise e, _, _ => Raise e
      | _, _, _, Raise e, _ => Raise e
      | _, _, _, _, Raise e => Raise e
      end
  end.

(** The second loop (lines 581-585): release the frequency of every
    independent signal unless the user fixed it. *)
Fixpoint release_freqs (t : table num) (prefixes : list string)
  (prefixmap : list (string * string)) (ps : Parameters)
  : result Parameters :=
  match prefixes with
  | [] => Ok ps
  | prefix :: rest =>
      if isindep prefix then
        match dict_get prefix prefixmap with
        | Ok pre =>
            match loc prefix fixfreq t,
                  dict_get (pre ++ "freq")%string ps,
                  dict_get (pre ++ "amp")%string ps,
                  dict_get (pre ++ "phase")%string ps with
            | Ok fixf, Ok pf, Ok pa, Ok pp =>
                release_freqs t rest prefixmap
                  (dict_set (pre ++ "phase")%string pp
                     (dict_set (pre ++ "amp")%string pa
                        (dict_set (pre ++ "freq")%string
                           (mkParam (value pf) (negb fixf) (expr pf) (stderr pf))
                           ps)))
            | Raise e, _, _, _ => Raise e
            | _, Raise e, _, _ => Raise e
            | _, _, Raise e, _ => Raise e
            | _, _, _, Raise e => Raise e
            end
        | Raise e => Raise e
        end
      else release_freqs t rest prefixmap ps
  end.

Definition modify_values (f : table num -> table num) : M (Pyriod num) unit :=
  self <- get ;; put (set_values (f (values self)) self).

Definition read_values {A} (key : string) (col : row num -> A)
  : M (Pyriod num) A :=
  self <- get ;; lift (loc key col (values self)).

(** The number held by a parameter field; [float(None / x)] and
    [float(None)] raise [TypeError]. *)
Definition number (v : option num) : result num :=
  match v with Some x => Ok x | None => Raise TypeError end.

Definition set_freq (v : num) (r : row num) : row num :=
  mkRow (include r) v (fixfreq r) (freqerr r) (amp r) (fixamp r) (amperr r)
        (phase r) (fixphase r) (phaseerr r).
Definition set_freqerr (v : num) (r : row num) : row num :=
  mkRow (include r) (freq r) (fixfreq r) (Some v) (amp r) (fixamp r)
        (amperr r) (phase r) (fixphase r) (phaseerr r).
Definition set_amp (v : num) (r : row num) : row num :=
  mkRow (include r) (freq r) (fixfreq r) (freqerr r) v (fixamp r) (amperr r)
        (phase r) (fixphase r) (phaseerr r).
Definition set_amperr (v : option num) (r : row num) : row num :=
  mkRow (include r) (freq r) (fixfreq r) (freqerr r) (amp r) (fixamp r) v
        (phase r) (fixphase r) (phaseerr r).
Definition set_phase (v : num) (r : row num) : row num :=
  mkRow (include r) (freq r) (fixfreq r) (freqerr r) (amp r) (fixamp r)
        (amperr r) v (fixphase r) (phaseerr r).
Definition set_phaseerr (v : num) (r : row num) : row num :=
  mkRow (include r) (freq r) (fixfreq r) (freqerr r) (amp r) (fixamp r)
        (amperr r) (phase r) (fixphase r) (Some v).

(** The body of the loop of [_update_values_from_fit] (lines 598-610),
    statement by statement. *)
Definition update_entry (ps : Parameters) (prefixmap : list (string * string))
  (prefix : string) : M (Pyriod num) unit :=
  pre <- lift (dict_get prefix prefixmap) ;;
  pf <- lift (dict_get (pre ++ "freq")%string ps) ;;
  v <- lift (number (value pf)) ;;
  modify_values (loc_set prefix (set_freq (ndiv v freq_conversion))) ;;;
  e <- lift (number (stderr pf)) ;;
  modify_values (loc_set prefix (set_freqerr (ndiv e freq_conversion))) ;;;
  pa <- lift (dict_get (pre ++ "amp")%string ps) ;;
  v <- lift (number (value pa)) ;;
  modify_values (loc_set prefix (set_amp v)) ;;;
  e <- lift (number (stderr pa)) ;;
  modify_values (loc_set prefix (set_amperr (Some e))) ;;;
  pp <- lift (dict_get (pre ++ "phase")%string ps) ;;
  v <- lift (number (value pp)) ;;
  modify_values (loc_set prefix (set_phase v)) ;;;
  e <- lift (number (stderr pp)) ;;
  modify_values (loc_set prefix (set_phaseerr e)) ;;;
  a <- read_values prefix amp ;;
  (if nltb a (of_Z 0) then
     modify_values (loc_set prefix (fun r => set_amp (nmul (amp r) (of_Z (-1))) r)) ;;;
     modify_values (loc_set prefix (fun r => set_phase (nsub (phase r) half) r))
   else ret tt) ;;;
  f <- read_values prefix freq ;;
  modify_values (loc_set prefix (fun r =>
    set_phase (nadd (phase r) (nmul (nmul tshift f) freq_conversion)) r)) ;;;
  modify_values (loc_set prefix (fun r => set_phase (nmod1 (phase r)) r)).

(** The six numbers that the loop body reads from the parameters for one
    entry, in the order in which it reads them. *)
Record fitted : Type := mkFitted {
  fit_freq : num;
  fit_freqerr : num;
  fit_amp : num;
  fit_amperr : num;
  fit_phase : num;
  fit_phaseerr : num
}.

Definition fitted_values (ps : Parameters)
  (prefixmap : list (string * string)) (prefix : string) : result fitted :=
  match dict_get prefix prefixmap with
  | Raise e => Raise e
  | Ok pre =>
      match dict_get (pre ++ "freq")%string ps with
      | Raise e => Raise e
      | Ok pf =>
          match number (value pf), number (stderr pf),
                dict_get (pre ++ "amp")%string ps with
          | Ok vf, Ok ef, Ok pa =>
              match number (value pa), number (stderr pa),
                    dict_get (pre ++ "phase")%string ps with
              | Ok va, Ok ea, Ok pp =>
                  match number (value pp), number (stderr pp) with
                  | Ok vp, Ok ep => Ok (mkFitted vf ef va ea vp ep)
                  | Raise e, _ => Raise e
                  | _, Raise e => Raise e
                  end
              | Raise e, _, _ => Raise e
              | _, Raise e, _ => Raise e
              | _, _, Raise e => Raise e
              end
          | Raise e, _, _ => Raise e
          | _, Raise e, _ => Raise e
          | _, _, Raise e => Raise e
          end
      end
  end.

(** The row that the loop body leaves for an entry with fitted numbers [v]:
    the effect of lines 598-610 in one expression. *)
Definition normalized (v : fitted) (r : row num) : row num :=
  let f := ndiv (fit_freq v) freq_conversion in
  let negative := nltb (fit_amp v) (of_Z 0) in
  let a := if negative then nmul (fit_amp v) (of_Z (-1)) else fit_amp v in
  let p := if negative then nsub (fit_phase v) half else fit_phase v in
  mkRow (include r) f (fixfreq r)
        (Some (ndiv (fit_freqerr v) freq_conversion))
        a (fixamp r) (Some (fit_amperr v))
        (nmod1 (nadd p (nmul (nmul tshift f) freq_conversion)))
        (fixphase r) (Some (fit_phaseerr v)).

(** The same for a whole table: what the loop leaves when it runs over the
    keys [ks]. *)
Definition normalized_at (ps : Parameters)
  (prefixmap : list (string * string)) (key : string) (r : row num)
  : row num :=
  match fitted_values ps prefixmap key with
  | Ok v => normalized v r
  | Raise _ => r
  end.

Definition committed (ps : Parameters) (prefixmap : list (string * string))
  (ks : list string) (t : table num) : table num :=
  map (fun kr =>
         if existsb (String.eqb (fst kr)) ks
         then (fst kr, normalized_at ps prefixmap (fst kr) (snd kr))
         else kr) t.

(** [_convert_values_to_qgrid] and [_convert_qgrid_to_values]
    (lines 620-630). *)
Definition _convert_values_to_qgrid (t : table num) : table num :=
  map (fun kr => (fst kr,
    set_amperr (option_map (fun e => nmul e amp_conversion) (amperr (snd kr)))
      (set_amp (nmul (amp (snd kr)) amp_conversion) (snd kr)))) t.

Definition _convert_qgrid_to_values (df : table num) : table num :=
  map (fun kr => (fst kr,
    set_amperr (option_map (fun e => ndiv e amp_conversion) (amperr (snd kr)))
      (set_amp (ndiv (amp (snd kr)) amp_conversion) (snd kr)))) df.

Definition set_models (sampled observed resid : series num)
  (self : Pyriod num) : Pyriod num :=
  mkPyriod (lc_orig self) sampled observed resid (freqs self) (per_orig self)
           (per_model self) (per_resid self) (values self).

Definition set_pers (model resid : list num) (self : Pyriod num)
  : Pyriod num :=
  mkPyriod (lc_orig self) (lc_model_sampled self) (lc_model_observed self)
           (lc_resid self) (freqs self) (per_orig self) model resid
           (values self).

(** [lc + sin(lc.time, f, a, p)]: a new series with the same times. *)
Definition add_sine (lc : series num) (f a p : num) : series num :=
  mkSeries (time lc)
    (map (fun xy => nadd (snd xy) (sin_model (fst xy) f a p))
         (combine (time lc) (flux lc))).

(** The loop of [_update_lcs] (lines 645-652); it runs over every row of
    the table.  A pass reads the three numbers of its row and then rebinds
    both series, so when a pass raises the series hold the sinusoids of
    the passes before it. *)
Fixpoint add_signals (t : table num) (prefixes : list string)
  (sampled observed : series num)
  : result unit * (series num * series num) :=
  match prefixes with
  | [] => (Ok tt, (sampled, observed))
  | prefix :: rest =>
      match loc prefix freq t, loc prefix amp t, loc prefix phase t with
      | Ok f, Ok a, Ok p =>
          add_signals t rest
            (add_sine sampled (nmul f freq_conversion) a p)
            (add_sine observed (nmul f freq_conversion) a p)
      | Raise e, _, _ => (Raise e, (sampled, observed))
      | _, Raise e, _ => (Raise e, (sampled, observed))
      | _, _, Raise e => (Raise e, (sampled, observed))
      end
  end.

(** [_update_lcs] (lines 640-653).  The residuals are computed after the
    loop, so they are the old ones when the loop raises. *)
Definition _update_lcs : M (Pyriod num) unit :=
  self <- get ;;
  let base := nadd (of_Z 0) (mean (flux (lc_orig self))) in
  let sampled0 := mkSeries (time (lc_model_sampled self))
                    (map (fun _ => base) (time (lc_model_sampled self))) in
  let observed0 := mkSeries (time (lc_model_observed self))
                     (map (fun _ => base) (time (lc_orig self))) in
  let looped := add_signals (values self) (index_of (values self))
                  sampled0 observed0 in
  let sampled := fst (snd looped) in
  let observed := snd (snd looped) in
  match fst looped with
  | Raise e =>
      put (set_models sampled observed (lc_resid self) self) ;;; raise e
  | Ok _ =>
      let resid := mkSeries (time (lc_orig self))
                     (map (fun xy => nsub (fst xy) (snd xy))
                          (combine (flux (lc_orig self)) (flux observed))) in
      put (set_models sampled observed resid self)
  end.

(** [_update_pers] (lines 792-799): both periodograms are evaluated at
    [self.freqs]. *)
Definition _update_pers : M (Pyriod num) unit :=
  self <- get ;;
  put (set_pers
         (map (fun p => nmul p amp_conversion)
              (to_periodogram (lc_model_observed self) (freqs self)))
         (map (fun p => nmul p amp_conversion)
              (to_periodogram (lc_resid self) (freqs self)))
         self).

(** [_update_values_from_qgrid] (lines 632-638) on the object, with the
    frame that the table widget returns from [get_changed_df()] as an
    argument and without the two plotting calls; the method in full is
    [Gui._update_values_from_qgrid]. *)
Definition _update_values_from_qgrid (changed_df : table num)
  : M (Pyriod num) unit :=
  modify_values (fun _ => _convert_qgrid_to_values changed_df) ;;;
  _update_lcs ;;;
  _update_pers.

(** *** The calls that act on the table alone *)

Inductive call : Type :=
| AddSignal (freq : num) (amp phase : option num)
            (fixfreq fixamp fixphase include : bool) (index : option string)
| DeleteRows (indices : list string).

Definition perform (c : call) : M (Pyriod num) unit :=
  match c with
  | AddSignal f a p ff fa fp inc idx => add_signal f a p ff fa fp inc idx
  | DeleteRows idx => delete_rows idx
  end.

(** The state after a sequence of calls; a call that raises leaves the
    state it reached and the session goes on. *)
Definition run (cs : list call) (self : Pyriod num) : Pyriod num :=
  fold_left (fun s c => snd (perform c s)) cs self.

End Engine.

Arguments parameter num : clear implicits.
Arguments Parameters num : clear implicits.
Arguments ModelResult num : clear implicits.
Arguments call num : clear implicits.
Arguments fitted num : clear implicits.

(** The loop [for key in keys: expression = expression.replace(key,
    str(self.values.loc[key,'freq']))] of [add_combination] (lines
    517-518), for the builtin [str] on a float. *)
Fixpoint substitute_keys {num} (str : num -> string) (keys : list string)
  (t : table num) (expression : string) : result string :=
  match keys with
  | [] => Ok expression
  | key :: keys' =>
      match loc key freq t with
      | Ok f => substitute_keys str keys' t (replace key (str f) expression)
      | Raise e => Raise e
      end
  end.

(** ** The object with its widgets

    The methods in full.  The state has the object, the frame of the table
    widget ([self.signals_qgrid.df], in display units) and the state of
    the other widgets, of which nothing is known. *)

Module Gui.

(** What [eval] sees at line 519 besides the object: the arguments of
    [add_combination], with [combostr] as line 510 left it, and the local
    variables [parts] and [keys]. *)
Record scope (num : Type) : Type := mkScope {
  arg_combostr : string;
  arg_amp : option num;
  arg_phase : option num;
  arg_fixfreq : bool;
  arg_fixamp : bool;
  arg_fixphase : bool;
  arg_index : option string;
  local_parts : list string;
  local_keys : list string
}.
Arguments mkScope {num}.
Arguments arg_combostr {num}.
Arguments arg_amp {num}.
Arguments arg_phase {num}.
Arguments arg_fixfreq {num}.
Arguments arg_fixamp {num}.
Arguments arg_fixphase {num}.
Arguments arg_index {num}.
Arguments local_parts {num}.
Arguments local_keys {num}.

Record state (num W : Type) : Type := mkState {
  obj : Pyriod num;
  signals_qgrid_df : table num;
  widgets : W
}.
Arguments mkState {num W}.
Arguments obj {num W}.
Arguments signals_qgrid_df {num W}.
Arguments widgets {num W}.

(** The arguments of one call of [model.fit], with the prefix map. *)
Record fit_call (num : Type) : Type := mkFitCall {
  fit_model_names : list string;
  fit_data : list num;
  fit_params : Parameters num;
  fit_x : list num;
  fit_prefixmap : list (string * string)
}.
Arguments mkFitCall {num}.
Arguments fit_model_names {num}.
Arguments fit_data {num}.
Arguments fit_params {num}.
Arguments fit_x {num}.
Arguments fit_prefixmap {num}.

Local Abbreviation object_add_signal := add_signal.
Local Abbreviation object_delete_rows := delete_rows.

Section Methods.
Context {num W : Type} `{Num num} `{Trig num}.

(** [self.amp_conversion], [self.nyq], [self.freq_conversion] and
    [self.tshift], fixed at construction. *)
Variable amp_conversion : num.
Variable nyq : num.
Variable freq_conversion : num.
Variable tshift : num.

(** [self.interpls], the interpolant of the original periodogram (it
    raises outside the grid), and [subfreq(f, nyq)[0]] of the module
    [pyquist], which is not part of the sources at hand. *)
Variable interpls : num -> result num.
Variable subfreq : num -> num -> num.

(** The builtins.  [str] on a float.  [eval] on a text, called at line 519
    without a namespace: it evaluates in the scope of [add_combination],
    so it reads the arguments and the object and can call the object's
    methods; it returns the float that the text denotes or raises.  A text
    that denotes another kind of object is outside this model. *)
Variable str : num -> string.
Variable eval : scope num -> string -> M (state num W) num.

(** The order in which a Python [set] built from these strings is
    iterated. *)
Variable set_order : list string -> list string.

(** [model.fit(data, params, x=x)] of the solver library, for the
    composite model named by its list of prefixes.  It may raise. *)
Variable model_fit :
  list string -> list num -> Parameters num -> list num
  -> result (ModelResult num).

(** [series.to_periodogram(normalization='amplitude', frequency=freqs)
    .power.value] of the light-curve library. *)
Variable to_periodogram : series num -> list num -> list num.

(** [DataFrame.combine_first] of pandas, followed by the selection of the
    ten displayed columns. *)
Variable combine_first : table num -> table num -> result (table num).

(** The widget assignments of [_update_freq_dropdown] (lines 702-711), of
    [_update_signal_markers] (lines 751-754) and of [_update_lc_display]
    (lines 744-749), which read the table or the series.  A widget may
    refuse a value, so they may raise. *)
Variable _update_freq_dropdown : table num -> M W unit.
Variable _update_signal_markers : table num -> M W unit.
Variable _update_lc_display : Pyriod num -> M W unit.

(** The loop of [_qgrid_changed_manually] that describes the changes for
    the log (lines 659-670), on the frame of the widget with the edit and
    the frame without it.  Its comparisons and lookups may raise. *)
Variable describe_changes : table num -> table num -> result unit.

Definition on_obj {A} (c : M (Pyriod num) A) : M (state num W) A :=
  fun g => let (r, o) := c (obj g) in
           (r, mkState o (signals_qgrid_df g) (widgets g)).

Definition on_widgets {A} (c : M W A) : M (state num W) A :=
  fun g => let (r, w) := c (widgets g) in
           (r, mkState (obj g) (signals_qgrid_df g) w).

Definition set_df (df : table num) : M (state num W) unit :=
  fun g => (Ok tt, mkState (obj g) df (widgets g)).

(** Lines 499-500: the copy of the table with the amplitudes, and only
    them, in display units. *)
Definition displayframe (t : table num) : table num :=
  map (fun kr =>
         (fst kr, set_amp (nmul (amp (snd kr)) amp_conversion) (snd kr))) t.

(** [add_signal] (lines 483-504). *)
Definition add_signal (freq : num) (amp phase : option num)
  (fixfreq fixamp fixphase include : bool) (index : option string)
  : M (state num W) unit :=
  on_obj (object_add_signal amp_conversion freq amp phase fixfreq fixamp
            fixphase include index) ;;;
  g <- get ;;
  on_widgets (_update_freq_dropdown (values (obj g))) ;;;
  df <- lift (combine_first (displayframe (values (obj g)))
                (signals_qgrid_df g)) ;;
  set_df df ;;;
  on_widgets (_update_signal_markers (values (obj g))).

(** [delete_rows] (lines 683-685). *)
Definition delete_rows (indices : list string) : M (state num W) unit :=
  on_obj (object_delete_rows indices) ;;;
  g <- get ;;
  df <- lift (drop indices (signals_qgrid_df g)) ;;
  set_df df.

(** Lines 514-519 of [add_combination]: the frequency that [eval] returns
    for the expression with the known keys replaced by their frequencies,
    or the exception raised on the way. *)
Definition combination_frequency (combostr : string) (amp phase : option num)
  (fixfreq fixamp fixphase : bool) (index : option string)
  : M (state num W) num :=
  g <- get ;;
  let parts := re_split combostr in
  let keys :=
    set_order (filter (fun part => in_index part (values (obj g))) parts) in
  expression <- lift (substitute_keys str keys (values (obj g)) combostr) ;;
  eval (mkScope combostr amp phase fixfreq fixamp fixphase index parts keys)
       expression.

(** [add_combination] (lines 508-523). *)
Definition add_combination (combostr : string) (amp phase : option num)
  (fixfreq fixamp fixphase : bool) (index : option string)
  : M (state num W) unit :=
  let combostr := replace " " "" combostr in
  freqval <- combination_frequency combostr amp phase fixfreq fixamp
               fixphase index ;;
  amp <- match amp with
         | None => lift (interpls (subfreq freqval nyq))
         | Some a => ret a
         end ;;
  add_signal freqval (Some amp) None false false false true (Some combostr).

(** [_update_values_from_qgrid] (lines 632-638); [get_changed_df()]
    returns the frame of the widget. *)
Definition _update_values_from_qgrid : M (state num W) unit :=
  g <- get ;;
  on_obj (modify_values
            (fun _ => _convert_qgrid_to_values amp_conversion
                        (signals_qgrid_df g))) ;;;
  on_obj (_update_lcs freq_conversion) ;;;
  g <- get ;;
  on_widgets (_update_signal_markers (values (obj g))) ;;;
  on_widgets (_update_lc_display (obj g)) ;;;
  on_obj (_update_pers amp_conversion to_periodogram).

(** [_qgrid_changed_manually] (lines 655-674): the user has edited the
    widget, whose [get_changed_df()] now returns [changed_df]. *)
Definition _qgrid_changed_manually (changed_df : table num)
  : M (state num W) unit :=
  g <- get ;;
  lift (describe_changes changed_df (signals_qgrid_df g)) ;;;
  df <- lift (combine_first changed_df (signals_qgrid_df g)) ;;
  set_df df ;;;
  _update_values_from_qgrid.

(** The loop of [_update_values_from_fit] (lines 597-610). *)
Definition update_loop (ps : Parameters num)
  (prefixmap : list (string * string)) : M (Pyriod num) unit :=
  self <- get ;;
  for_each (included (values self))
           (update_entry freq_conversion tshift ps prefixmap).

(** [_update_values_from_fit] (lines 592-618). *)
Definition _update_values_from_fit (ps : Parameters num)
  (prefixmap : list (string * string)) : M (state num W) unit :=
  on_obj (update_loop ps prefixmap) ;;;
  g <- get ;;
  on_widgets (_update_freq_dropdown (values (obj g))) ;;;
  df <- lift (combine_first
                (_convert_values_to_qgrid amp_conversion (values (obj g)))
                (signals_qgrid_df g)) ;;
  set_df df ;;;
  _update_values_from_qgrid.

(** Lines 535-576 of [fit_model]: the parameters with every frequency
    held, the composite model, and the data and times of the fit. *)
Fixpoint model_names (prefixmap : list (string * string))
  (prefixes : list string) : result (list string) :=
  match prefixes with
  | [] => Ok []
  | prefix :: rest =>
      match dict_get prefix prefixmap, model_names prefixmap rest with
      | Ok pre, Ok ns => Ok (pre :: ns)
      | Raise e, _ => Raise e
      | _, Raise e => Raise e
      end
  end.

Definition prepare_fit (self : Pyriod num) (prefixes : list string)
  : result (fit_call num) :=
  match build_params set_order freq_conversion (values self) prefixes 0
                     [] [] with
  | Raise e => Raise e
  | Ok (ps, prefixmap) =>
      match model_names prefixmap prefixes with
      | Raise e => Raise e
      | Ok model =>
          Ok (mkFitCall model
                (map (fun y => nsub y (mean (flux (lc_orig self))))
                     (flux (lc_orig self)))
                ps
                (map (fun tm => nadd tm tshift) (time (lc_orig self)))
                prefixmap)
      end
  end.

(** [fit_model] (lines 526-590).  The outcome of [model.fit] is used
    through [result.params] only. *)
Definition fit_model : M (state num W) unit :=
  g <- get ;;
  let self := obj g in
  match included (values self) with
  | [] => ret tt
  | prefixes =>
      c <- lift (prepare_fit self prefixes) ;;
      result1 <- lift (model_fit (fit_model_names c) (fit_data c)
                         (fit_params c) (fit_x c)) ;;
      ps2 <- lift (release_freqs (values self) prefixes (fit_prefixmap c)
                     (params result1)) ;;
      result2 <- lift (model_fit (fit_model_names c) (fit_data c) ps2
                         (fit_x c)) ;;
      _update_values_from_fit (params result2) (fit_prefixmap c)
  end.

(** *** A session: the calls a user can make after construction *)

Inductive call : Type :=
| AddSignal (freq : num) (amp phase : option num)
            (fixfreq fixamp fixphase include : bool) (index : option string)
| AddCombination (combostr : string) (amp phase : option num)
                 (fixfreq fixamp fixphase : bool) (index : option string)
| DeleteRows (indices : list string)
| FitModel
| QgridChanged (changed_df : table num)
| UpdatePers.

Definition perform (c : call) : M (state num W) unit :=
  match c with
  | AddSignal f a p ff fa fp inc idx => add_signal f a p ff fa fp inc idx
  | AddCombination s a p ff fa fp idx => add_combination s a p ff fa fp idx
  | DeleteRows idx => delete_rows idx
  | FitModel => fit_model
  | QgridChanged df => _qgrid_changed_manually df
  | UpdatePers => on_obj (_update_pers amp_conversion to_periodogram)
  end.

(** The state after a sequence of calls; a call that raises leaves the
    state it reached and the session goes on. *)
Definition run (cs : list call) (g : state num W) : state num W :=
  fold_left (fun s c => snd (perform c s)) cs g.

End Methods.

Arguments call num : clear implicits.

End Gui.

(** A solver that behaves as [fit] but always reports convergence. *)
Definition reporting_success {num}
  (fit : list string -> list num -> Parameters num -> list num
         -> result (ModelResult num))
  : list string -> list num -> Parameters num -> list num
    -> result (ModelResult num) :=
  fun model data ps x =>
    match fit model data ps x with
    | Ok r => Ok (mkModelResult true (params r))
    | Raise e => Raise e
    end.

(** ** Stand-ins for [eval] and [str] in the examples

    [eval] and [str] are Python builtins.  The examples below use an
    evaluator for sums, differences, products and quotients of decimal
    literals with a point and of names, with unary signs, and the
    positional decimal rendering of a number.  A name is looked up in an
    environment; a name that is not there raises [NameError]. *)

Inductive token : Type :=
| TNum (lit : string)
| TName (name : string)
| TOp (c : ascii)
| TBad (c : ascii).

Definition is_alpha (c : ascii) : bool :=
  let n := nat_of_ascii c in
  ((65 <=? n)%nat && (n <=? 90)%nat) || ((97 <=? n)%nat && (n <=? 122)%nat)
  || (n =? 95)%nat.

Inductive lex_mode : Type :=
| LNone
| LNum (acc : string)
| LName (acc : string).

Definition flush (m : lex_mode) : list token :=
  match m with
  | LNone => []
  | LNum acc => [TNum acc]
  | LName acc => [TName acc]
  end.

Definition snoc (acc : string) (c : ascii) : string :=
  (acc ++ String c EmptyString)%string.

Fixpoint lex (s : string) (m : lex_mode) : list token :=
  match s with
  | EmptyString => flush m
  | String c s' =>
      if is_operator c then flush m ++ TOp c :: lex s' LNone
      else if is_digit c then
        match m with
        | LNone => lex s' (LNum (String c EmptyString))
        | LNum acc => lex s' (LNum (snoc acc c))
        | LName acc => lex s' (LName (snoc acc c))
        end
      else if Ascii.eqb c "." then
        match m with
        | LNone => lex s' (LNum (String c EmptyString))
        | LNum acc => lex s' (LNum (snoc acc c))
        | LName acc => flush m ++ TBad c :: lex s' LNone
        end
      else if is_alpha c then
        match m with
        | LNone => lex s' (LName (String c EmptyString))
        | LNum acc => flush m ++ lex s' (LName (String c EmptyString))
        | LName acc => lex s' (LName (snoc acc c))
        end
      else flush m ++ TBad c :: lex s' LNone
  end.

(** A literal [ddd], [ddd.ddd], [ddd.] or [.ddd] as mantissa and number of
    fraction digits. *)
Fixpoint digits_value (s : string) (acc : Z) : option Z :=
  match s with
  | EmptyString => Some acc
  | String c s' =>
      if is_digit c
      then digits_value s' (10 * acc + Z.of_nat (nat_of_ascii c - 48))%Z
      else None
  end.

Fixpoint split_dot (s : string) : string * option string :=
  match s with
  | EmptyString => (EmptyString, None)
  | String c s' =>
      if Ascii.eqb c "." then (EmptyString, Some s')
      else let '(a, b) := split_dot s' in (String c a, b)
  end.

Fixpoint all_zero (s : string) : bool :=
  match s with
  | EmptyString => true
  | String c s' => Ascii.eqb c "0" && all_zero s'
  end.

Definition literal (lit : string) : option (Z * nat) :=
  match split_dot lit with
  | (ip, None) =>
      match ip with
      | EmptyString => None
      | String c rest =>
          if Ascii.eqb c "0" && negb (all_zero rest) then None
          else match digits_value ip 0 with
               | Some m => Some (m, O)
               | None => None
               end
      end
  | (ip, Some fp) =>
      match ip, fp with
      | EmptyString, EmptyString => None
      | _, _ =>
          match digits_value (ip ++ fp)%string 0 with
          | Some m => Some (m, String.length fp)
          | None => None
          end
      end
  end.

(** The grammar check: operands and binary operators alternate, and an
    operand may carry unary signs. *)
Fixpoint well_formed (ts : list token) (operand_next : bool) : bool :=
  match ts with
  | [] => negb operand_next
  | TNum lit :: ts' =>
      operand_next
      && match literal lit with Some _ => true | None => false end
      && well_formed ts' false
  | TName _ :: ts' => operand_next && well_formed ts' false
  | TOp c :: ts' =>
      if operand_next
      then (Ascii.eqb c "+" || Ascii.eqb c "-") && well_formed ts' true
      else well_formed ts' true
  | TBad _ :: _ => false
  end.

Section Arith.
Context {num : Type} `{Num num}.

(** The names that are bound, with the number each one holds. *)
Variable env : string -> option num.

Definition literal_value (lit : string) : result num :=
  match literal lit with
  | Some (m, O) => Ok (of_Z m)
  | Some (m, k) => Ok (ndiv (of_Z m) (of_Z (10 ^ Z.of_nat k)))
  | None => Raise SyntaxError
  end.

(** The evaluation state while reading a well-formed token list from the
    left: the sum so far with the sign of the term being read, the
    product so far with the operator of the factor being read, and the
    unary sign collected for that factor. *)
Record acc : Type := mkAcc {
  total : option num;
  minus : bool;
  term : option num;
  divide : bool;
  negate : bool
}.

Definition close_term (a : acc) : option num :=
  match term a with
  | None => total a
  | Some t =>
      match total a with
      | None => Some t
      | Some s => Some (if minus a then nsub s t else nadd s t)
      end
  end.

Definition push_factor (a : acc) (v : num) : result acc :=
  let v := if negate a then nopp v else v in
  match term a with
  | None => Ok (mkAcc (total a) (minus a) (Some v) false false)
  | Some t =>
      if divide a then
        if neqb v (of_Z 0) then Raise ZeroDivisionError
        else Ok (mkAcc (total a) (minus a) (Some (ndiv t v)) false false)
      else Ok (mkAcc (total a) (minus a) (Some (nmul t v)) false false)
  end.

Fixpoint eval_tokens (ts : list token) (operand_next : bool) (a : acc)
  : result num :=
  match ts with
  | [] => match close_term a with
          | Some v => Ok v
          | None => Raise SyntaxError
          end
  | TNum lit :: ts' =>
      match literal_value lit with
      | Ok v => match push_factor a v with
                | Ok a' => eval_tokens ts' false a'
                | Raise e => Raise e
                end
      | Raise e => Raise e
      end
  | TName name :: ts' =>
      match env name with
      | Some v => match push_factor a v with
                  | Ok a' => eval_tokens ts' false a'
                  | Raise e => Raise e
                  end
      | None => Raise NameError
      end
  | TOp c :: ts' =>
      if operand_next then
        eval_tokens ts' true
          (mkAcc (total a) (minus a) (term a) (divide a)
                 (if Ascii.eqb c "-" then negb (negate a) else negate a))
      else if Ascii.eqb c "+" || Ascii.eqb c "-" then
        eval_tokens ts' true
          (mkAcc (close_term a) (Ascii.eqb c "-") None false false)
      else
        eval_tokens ts' true
          (mkAcc (total a) (minus a) (term a) (Ascii.eqb c "/") false)
  | TBad _ :: _ => Raise SyntaxError
  end.

Definition arith_eval (s : string) : result num :=
  let ts := lex s LNone in
  if well_formed ts true
  then eval_tokens ts true (mkAcc None false None false false)
  else Raise SyntaxError.

End Arith.

(** Decimal rendering of a rational: sign, integer part, a point and the
    fraction digits, at most seventeen of them.  For a number with a short
    decimal expansion this is what [str] of the float prints ([3.0], [3.5],
    [0.125]). *)
Definition digit_char (d : Z) : ascii := ascii_of_nat (48 + Z.to_nat d).

Fixpoint frac_digits (n : nat) (r d : Z) : string :=
  match n with
  | O => EmptyString
  | S n' =>
      let r10 := (10 * r)%Z in
      String (digit_char (r10 / d))
             (if (r10 mod d =? 0)%Z then EmptyString
              else frac_digits n' (r10 mod d) d)
  end.

Definition str_Q (x : Q) : string :=
  let x := Qred x in
  let a := Z.abs (Qnum x) in
  let d := Zpos (Qden x) in
  ((if (Qnum x <? 0)%Z then "-" else "")
   ++ NilEmpty.string_of_uint (N.to_uint (Z.to_N (a / d)))
   ++ "." ++ frac_digits 17 (a mod d) d)%string.

(** ** The frequency grid of [__init__] (lines 158 and 195-200)

    The grid is computed once from the times of the original series; it
    is written here over exact rationals, for the examples.  A division
    by zero, which numpy turns into an infinity or a NaN, and an index
    into an empty array have no value here.  On doubles [np.arange] takes
    the ceiling of a rounded quotient, so its last point can be one step
    further than the exact ceiling gives. *)

Module Grid.
Open Scope Q_scope.

(** [np.diff] *)
Fixpoint diff (l : list Q) : list Q :=
  match l with
  | a :: ((b :: _) as t) => (b - a) :: diff t
  | _ => []
  end.

Fixpoint insert (x : Q) (l : list Q) : list Q :=
  match l with
  | [] => [x]
  | y :: t => if Qle_bool x y then x :: l else y :: insert x t
  end.

Definition sort (l : list Q) : list Q := fold_right insert [] l.

(** [np.median]: the middle element of the sorted values, or the mean of
    the two middle ones. *)
Definition median (l : list Q) : Q :=
  let s := sort l in
  let n := List.length s in
  if Nat.even n
  then (nth (n / 2 - 1) s 0 + nth (n / 2) s 0) / 2
  else nth (n / 2) s 0.

Definition checked_div (x y : Q) : option Q :=
  if Qeq_bool y 0 then None else Some (x / y).

(** [np.arange(start, stop, step)]: [ceil((stop - start) / step)] values
    [start + i * step]. *)
Definition arange (start stop step : Q) : list Q :=
  map (fun i => start + inject_Z (Z.of_nat i) * step)
      (seq 0 (Z.to_nat (Qceiling ((stop - start) / step)))).

Record grid : Type := mkGrid {
  fres : Q;
  dt : Q;
  nyq : Q;
  freqs : list Q
}.

Definition build_grid (time : list Q) (freq_conversion oversample_factor : Q)
  : option grid :=
  match time with
  | [] => None
  | first :: _ =>
      let dt := median (diff time) in
      match checked_div 1 (last time 0 - first) with
      | None => None
      | Some fres =>
          match checked_div 1 (2 * dt * freq_conversion) with
          | None => None
          | Some nyq =>
              match checked_div fres oversample_factor with
              | None => None
              | Some step =>
                  Some (mkGrid fres dt nyq (arange 0 (nyq + step) step))
              end
          end
      end
  end.

(** Times strictly increasing. *)
Fixpoint increasing (l : list Q) : Prop :=
  match l with
  | a :: ((b :: _) as t) => a < b /\ increasing t
  | _ => True
  end.

End Grid.

(** ** An executable instance

    [np.pi] is a double, hence a rational.  [np.sin] has no exact rational
    counterpart; in the examples over the rationals it is the Taylor
    polynomial of degree fifteen after reduction of the argument to one
    period, which keeps them executable.  No statement below depends on
    what this stand-in returns. *)

Definition Q_pi : Q := (884279719003555 # 281474976710656)%Q.

Fixpoint taylor_sin (n : nat) (k : Z) (x2 term : Q) : Q :=
  match n with
  | O => 0%Q
  | S n' =>
      Qred (term + taylor_sin n' (k + 2)
                     x2 (Qred (- term * x2 / inject_Z ((k + 1) * (k + 2)))))%Q
  end.

Definition Q_sin (x : Q) : Q :=
  let tau := (2 * Q_pi)%Q in
  let y := Qred (x - inject_Z (Qfloor (x / tau + (1 # 2))) * tau)%Q in
  taylor_sin 8 1 (Qred (y * y)) y.

#[export] Instance Q_Trig : Trig Q := {|
  np_sin := Q_sin;
  np_pi := Q_pi
|}.

(** A small object to run the methods on: four samples, an empty table,
    amplitudes shown in parts per thousand, the grid of [build_grid] for an
    oversample factor of two. *)
Definition demo_series : series Q :=
  mkSeries [0; 1; 2; 3]%Q [0; 1; 0; -1]%Q.

Definition demo : Pyriod Q :=
  mkPyriod demo_series
           (mkSeries [0; 1; 2; 3]%Q [0; 0; 0; 0]%Q)
           (mkSeries [0; 1; 2; 3]%Q [0; 0; 0; 0]%Q)
           demo_series
           [0 # 6; 1 # 6; 2 # 6; 3 # 6]%Q
           [500; 500; 500; 500]%Q [0; 0; 0; 0]%Q [500; 500; 500; 500]%Q
           [].

Definition demo_amp_conversion : Q := 1000%Q.

(** Stand-ins for the collaborators of the demo object: the Nyquist
    frequency of its grid, an interpolant that is defined on the grid's
    range, the folding of a frequency into the band below Nyquist, a
    periodogram that is flat at the mean absolute flux, and a solver that stops without
    converging at an iterate a quarter away from its starting values. *)
Definition demo_nyq : Q := (1 # 2)%Q.

Definition demo_interpls (f : Q) : result Q :=
  if Qle_bool 0 f && Qle_bool f demo_nyq then Ok 500%Q else Raise ValueError.

(** Modelled from the spec: [subfreq] of the module [pyquist], which is
    not among the sources.  A frequency in [0, nyquist] is returned
    unchanged; any other is reflected across 0 and across the Nyquist
    frequency until it lies in that band. *)
Definition fold_to_nyquist (f nyq : Q) : Q :=
  let a := Qabs f in
  let period := (2 * nyq)%Q in
  let m := Qred (a - inject_Z (Qfloor (a / period)) * period)%Q in
  if Qle_bool m nyq then m else Qred (period - m)%Q.

Definition demo_subfreq (f nyq : Q) : Q := fold_to_nyquist f nyq.

Definition demo_freq_conversion : Q := 1%Q.

Definition demo_tshift : Q := (- (3 # 2))%Q.

Definition demo_to_periodogram (lc : series Q) (fs : list Q) : list Q :=
  map (fun _ => mean (map Qabs (flux lc))) fs.

Definition demo_iterate (p : parameter Q) : parameter Q :=
  mkParam
    (match value p with
     | Some v => Some (nadd v (1 # 4)%Q)
     | None => Some 1%Q
     end)
    (vary p) (expr p) (Some (1 # 100)%Q).

Definition stalled_fit (model : list string) (data : list Q)
  (ps : Parameters Q) (x : list Q) : result (ModelResult Q) :=
  Ok (mkModelResult false (map (fun np => (fst np, demo_iterate (snd np))) ps)).

Definition demo_perform : call Q -> M (Pyriod Q) unit :=
  perform demo_amp_conversion.

Definition demo_run : list (call Q) -> Pyriod Q -> Pyriod Q :=
  run demo_amp_conversion.

(** [add_signal(f)] with every other argument at its default. *)
Definition AddFreq (f : Q) : call Q :=
  AddSignal f None None false false false true None.

(** The table of [demo] after two calls of [add_signal]: [f0] at 2.0 and
    [f1] at 3.0. *)
Definition two_signals : Pyriod Q := demo_run [AddFreq 2; AddFreq 3]%Q demo.

(** Three signals added, the first one deleted. *)
Definition after_deletion : Pyriod Q :=
  demo_run [AddFreq 1; AddFreq 2; AddFreq 3; DeleteRows ["f0"]]%Q demo.

(** *** Stand-ins for pandas and the widgets

    [combine_first] on two frames without repeated labels: the labels of
    the result are those of both frames, sorted unless the two frames
    have the same labels in the same order or one frame is empty; a cell
    is the cell of the first frame unless that is null, and then the cell
    of the second.  Frames with a repeated label do not occur in the
    examples; the stand-in raises on them. *)

Fixpoint has_dups (l : list string) : bool :=
  match l with
  | [] => false
  | k :: l' => existsb (String.eqb k) l' || has_dups l'
  end.

Fixpoint insert_label (k : string) (l : list string) : list string :=
  match l with
  | [] => [k]
  | k' :: l' => if String.leb k k' then k :: l else k' :: insert_label k l'
  end.

Definition sort_labels (l : list string) : list string :=
  fold_right insert_label [] l.

Definition label_union (la lb : list string) : list string :=
  if list_eq_dec string_dec la lb then la
  else match la, lb with
       | _, [] => la
       | [], _ => lb
       | _, _ => sort_labels (nodup string_dec (la ++ lb))
       end.

Section Fill.
Context {num : Type}.

(** Whether pandas takes a number for a missing value ([nan]). *)
Variable isnull : num -> bool.

Definition fill_cell (x : num) (others : list num) : num :=
  if isnull x then hd x others else x.

(** A cell of an error column; [None] is the missing value. *)
Definition fill_err (x : option num) (others : list (option num))
  : option num :=
  match x with
  | Some v => if isnull v then hd x others else x
  | None => hd x others
  end.

(** The row of the first frame with its null cells taken from the row
    that the second frame has under the same label, if it has one.  The
    four flags are never null. *)
Definition fill_row (r : row num) (rb : list (row num)) : row num :=
  mkRow (include r)
        (fill_cell (freq r) (map freq rb)) (fixfreq r)
        (fill_err (freqerr r) (map freqerr rb))
        (fill_cell (amp r) (map amp rb)) (fixamp r)
        (fill_err (amperr r) (map amperr rb))
        (fill_cell (phase r) (map phase rb)) (fixphase r)
        (fill_err (phaseerr r) (map phaseerr rb)).

Definition sorted_combine_first (a b : table num) : result (table num) :=
  if has_dups (index_of a) || has_dups (index_of b) then Raise ValueError
  else
    Ok (flat_map
          (fun k => match rows_at k a, rows_at k b with
                    | r :: _, rb => [(k, fill_row r rb)]
                    | [], rb :: _ => [(k, rb)]
                    | [], [] => []
                    end)
          (label_union (index_of a) (index_of b))).

(** No cell of the row is null. *)
Definition complete (r : row num) : bool :=
  let present (x : option num) :=
    match x with Some v => negb (isnull v) | None => false end in
  negb (isnull (freq r)) && negb (isnull (amp r)) && negb (isnull (phase r))
  && present (freqerr r) && present (amperr r) && present (phaseerr r).

End Fill.

(** What the properties below take from [combine_first]: on two frames
    without repeated labels that it combines, the result has no repeated
    label; under a label of the first frame it has that frame's row with
    its null cells filled from the second, and under any other label what
    the second frame has.  The order of the rows is left open. *)
Definition pandas_combine_first {num} (isnull : num -> bool)
  (combine_first : table num -> table num -> result (table num)) : Prop :=
  forall a b c,
    combine_first a b = Ok c ->
    NoDup (index_of a) -> NoDup (index_of b) ->
    NoDup (index_of c)
    /\ forall key,
         rows_at key c
         = match rows_at key a with
           | r :: _ => [fill_row isnull r (rows_at key b)]
           | [] => rows_at key b
           end.

(** No rational is [nan]. *)
Definition Q_isnull (x : Q) : bool := false.

(** Widgets that accept every table, and a description of the changes
    that does not raise, as for two frames with the same labels. *)
Definition accepting {A} (x : A) : M unit unit := ret tt.

Definition describing (changed_df df : table Q) : result unit := Ok tt.

(** The numbers that the optional arguments of [add_combination] hold for
    [eval]: a flag counts as 1.0 or 0.0 in a product. *)
Definition demo_env (sc : Gui.scope Q) (name : string) : option Q :=
  let flag (b : bool) : option Q := Some (if b then 1%Q else 0%Q) in
  if String.eqb name "fixfreq" then flag (Gui.arg_fixfreq sc)
  else if String.eqb name "fixamp" then flag (Gui.arg_fixamp sc)
  else if String.eqb name "fixphase" then flag (Gui.arg_fixphase sc)
  else if String.eqb name "amp" then Gui.arg_amp sc
  else if String.eqb name "phase" then Gui.arg_phase sc
  else None.

(** A text that changes the object while it is evaluated: the first
    element of the list fills the frequency grid with zeros in place, and
    the value is the second element. *)
Definition filling : string := "[self.freqs.fill(0),1.0][1]".

Definition fill_freqs (g : Gui.state Q unit) : Gui.state Q unit :=
  let self := Gui.obj g in
  Gui.mkState
    (mkPyriod (lc_orig self) (lc_model_sampled self) (lc_model_observed self)
              (lc_resid self) (map (fun _ => 0%Q) (freqs self))
              (per_orig self) (per_model self) (per_resid self)
              (values self))
    (Gui.signals_qgrid_df g) (Gui.widgets g).

(** [eval] on texts without effects: arithmetic over literals and the
    names of [demo_env]. *)
Definition plain_eval (sc : Gui.scope Q) (text : string)
  : M (Gui.state Q unit) Q :=
  lift (arith_eval (demo_env sc) text).

(** [eval] on the texts of the examples: those of [plain_eval], and
    [filling]. *)
Definition demo_eval (sc : Gui.scope Q) (text : string)
  : M (Gui.state Q unit) Q :=
  if String.eqb text filling
  then fun g => (Ok 1%Q, fill_freqs g)
  else plain_eval sc text.

(** An iteration order for sets: the order of first occurrence. *)
Definition demo_set_order (l : list string) : list string :=
  nodup string_dec l.

Definition gui_perform
  (fit : list string -> list Q -> Parameters Q -> list Q
         -> result (ModelResult Q))
  : Gui.call Q -> M (Gui.state Q unit) unit :=
  Gui.perform demo_amp_conversion demo_nyq demo_freq_conversion demo_tshift
    demo_interpls demo_subfreq str_Q demo_eval demo_set_order fit
    demo_to_periodogram (sorted_combine_first Q_isnull)
    accepting accepting accepting describing.

Definition gui_run
  (fit : list string -> list Q -> Parameters Q -> list Q
         -> result (ModelResult Q))
  : list (Gui.call Q) -> Gui.state Q unit -> Gui.state Q unit :=
  Gui.run demo_amp_conversion demo_nyq demo_freq_conversion demo_tshift
    demo_interpls demo_subfreq str_Q demo_eval demo_set_order fit
    demo_to_periodogram (sorted_combine_first Q_isnull)
    accepting accepting accepting describing.

(** The demo object with its widgets, as constructed: the table and the
    frame of the widget are empty. *)
Definition demo_gui : Gui.state Q unit := Gui.mkState demo [] tt.

Definition adding (f : Q) : Gui.call Q :=
  Gui.AddSignal f None None false false false true None.

(** [add_combination(s, amp=a)]. *)
Definition combining (s : string) (a : Q) : Gui.call Q :=
  Gui.AddCombination s (Some a) None false false false None.

(** [f0] at 1.0, [f1] at 3.0 and [f2] at 5.0. *)
Definition three_signals : Gui.state Q unit :=
  gui_run stalled_fit [adding 1; adding 3; adding 5]%Q demo_gui.

(** Then the combination [f1+f2]. *)
Definition with_combination : Gui.state Q unit :=
  gui_run stalled_fit [combining "f1+f2" 1%Q] three_signals.

(** The frame that the table widget returns after the user has typed 3.5
    into the frequency cell of [f1]: the frame of the widget with that one
    cell changed. *)
Definition f1_edited : table Q :=
  loc_set "f1" (set_freq (7 # 2)%Q) (Gui.signals_qgrid_df with_combination).

(** A session on [demo_gui] that uses every kind of call. *)
Definition demo_session : list (Gui.call Q) :=
  [adding 1; adding 3; adding 5; combining "f1+f2" 1; Gui.FitModel;
   Gui.DeleteRows ["f0"]; Gui.QgridChanged f1_edited; Gui.UpdatePers]%Q.

(** The frequency column of a table. *)
Definition freq_column {num} (t : table num) : list (string * num) :=
  map (fun kr => (fst kr, freq (snd kr))) t.

(** ** Observations of the object

    An action maintains a property of the object when the property holds
    after the action whenever it held before, whether the action returns
    or raises. *)
Definition maintains {S A} (I : S -> Prop) (c : M S A) : Prop :=
  forall self, I self -> I (snd (c self)).

(** What the constructor computed from the data: the original series, its
    periodogram and the frequency grid. *)
Definition original {num} (self : Pyriod num)
  : series num * list num * list num :=
  (lc_orig self, per_orig self, freqs self).

(** The periodogram of a series on a grid, in display units, as
    [_update_pers] and the constructor compute it. *)
Definition periodogram_on {num} `{Num num} (amp_conversion : num)
  (to_periodogram : series num -> list num -> list num)
  (lc : series num) (grid : list num) : list num :=
  map (fun p => nmul p amp_conversion) (to_periodogram lc grid).

(** Both derived periodograms are periodograms of some series on [grid]. *)
Definition on_grid {num} `{Num num} (amp_conversion : num)
  (to_periodogram : series num -> list num -> list num)
  (grid : list num) (self : Pyriod num) : Prop :=
  (exists lc, per_model self = periodogram_on amp_conversion to_periodogram lc grid)
  /\ (exists lc, per_resid self = periodogram_on amp_conversion to_periodogram lc grid).

(** Two more solver doubles: one that raises, and one that returns an
    iterate without standard errors, as the solver library does when it
    cannot estimate them. *)
Definition raising_fit (model : list string) (data : list Q)
  (ps : Parameters Q) (x : list Q) : result (ModelResult Q) :=
  Raise ValueError.

Definition fit_without_errors (model : list string) (data : list Q)
  (ps : Parameters Q) (x : list Q) : result (ModelResult Q) :=
  Ok (mkModelResult false
        (map (fun np => (fst np,
                         mkParam (value (demo_iterate (snd np)))
                                 (vary (snd np)) (expr (snd np)) None)) ps)).

(** A solver that returns, as [stalled_fit] does, while the frequency of
    [f0] is held, and raises once it is free: it returns on the first call
    of [fit_model] and raises on the second. *)
Definition fit_once (model : list string) (data : list Q)
  (ps : Parameters Q) (x : list Q) : result (ModelResult Q) :=
  match dict_get "f0freq" ps with
  | Ok p => if vary p then Raise ValueError else stalled_fit model data ps x
  | Raise _ => stalled_fit model data ps x
  end.

(** A row of the table in the units of the widget, and a row of the
    widget's frame in the units of the table: the amplitude and its error
    are multiplied, or divided, by [amp_conversion]. *)
Definition to_display {num} `{Num num} (amp_conversion : num) (r : row num)
  : row num :=
  set_amperr (option_map (fun e => nmul e amp_conversion) (amperr r))
    (set_amp (nmul (amp r) amp_conversion) r).

Definition from_display {num} `{Num num} (amp_conversion : num) (r : row num)
  : row num :=
  set_amperr (option_map (fun e => ndiv e amp_conversion) (amperr r))
    (set_amp (ndiv (amp r) amp_conversion) r).

(** An evaluation that leaves alone what the constructor computed and the
    two derived periodograms, whatever else it does. *)
Definition harmless {num W}
  (eval : Gui.scope num -> string -> M (Gui.state num W) num) : Prop :=
  forall sc text g,
    let self := Gui.obj g in
    let self' := Gui.obj (snd (eval sc text g)) in
    original self' = original self
    /\ per_model self' = per_model self
    /\ per_resid self' = per_resid self.

(** A property that does not read the table. *)
Definition table_blind {num} (I : Pyriod num -> Prop) : Prop :=
  forall t self, I self -> I (set_values t self).

(** A property that does not read the model and residual series. *)
Definition model_blind {num} (I : Pyriod num -> Prop) : Prop :=
  forall a b c self, I self -> I (set_models a b c self).

(** The invariant of a session: the constructor's results are [o], and both
    derived periodograms live on the grid of [o]. *)
Definition settled {num} `{Num num} (amp_conversion : num)
  (to_periodogram : series num -> list num -> list num)
  (o : series num * list num * list num) (self : Pyriod num) : Prop :=
  original self = o /\ on_grid amp_conversion to_periodogram (snd o) self.

(** ** The constructor

    [__init__] (lines 118-271), for the parts that the engine uses: the
    time shift, the three model series, the grid and the three
    periodograms.  The table starts empty. *)

Record constructed : Type := mkConstructed {
  object : Pyriod Q;
  init_tshift : Q;
  init_fres : Q;
  init_nyq : Q
}.

(** [np.min] and [np.max] *)
Definition minimum (l : list Q) : Q :=
  fold_left (fun m x => if Qle_bool x m then x else m) l (hd 0%Q l).

Definition maximum (l : list Q) : Q :=
  fold_left (fun m x => if Qle_bool m x then x else m) l (hd 0%Q l).

Definition construct (time flux : list Q)
  (freq_conversion oversample_factor amp_conversion : Q)
  (to_periodogram : series Q -> list Q -> list Q) : option constructed :=
  match Grid.build_grid time freq_conversion oversample_factor with
  | None => None
  | Some g =>
      let orig := mkSeries time flux in
      let dt := Grid.dt g in
      let time_samples :=
        Grid.arange (minimum time) (Qred (maximum time + dt)) dt in
      let base := nadd (of_Z 0) (mean flux) in
      let sampled := mkSeries time_samples (map (fun _ => base) time_samples) in
      let observed := mkSeries time (map (fun _ => base) time) in
      let resid :=
        mkSeries time
          (map (fun xy => nsub (fst xy) (snd xy))
               (combine flux (map (fun _ => base) time))) in
      Some (mkConstructed
              (mkPyriod orig sampled observed resid (Grid.freqs g)
                 (periodogram_on amp_conversion to_periodogram orig
                    (Grid.freqs g))
                 (periodogram_on amp_conversion to_periodogram observed
                    (Grid.freqs g))
                 (periodogram_on amp_conversion to_periodogram resid
                    (Grid.freqs g))
                 [])
              (nopp (mean time)) (Grid.fres g) (Grid.nyq g))
  end.

(** ** IEEE doubles

    The floats of the program, with the operations that the fit's
    normalisation applies to them. *)

Module Binary64.
Import PrimFloat FloatOps SpecFloat.

(** The double nearest to an integer; exact below 2^53. *)
Definition float_of_Z (z : Z) : float :=
  SF2Prim (binary_normalize prec emax z 0 false).

(** [fmod(x, 1.0)] of the C library: the fraction of [x] with the sign of
    [x].  It is a double itself, so nothing is rounded. *)
Definition fmod1 (x : float) : float :=
  match Prim2SF x with
  | S754_zero _ => x
  | S754_finite s m e =>
      let q := if (0 <=? e)%Z then 0%Z else (Zpos m mod 2 ^ (- e))%Z in
      SF2Prim (binary_normalize prec emax (if s then (- q)%Z else q) e s)
  | S754_infinity _ => nan
  | S754_nan => nan
  end.

(** [x % 1.] as Python and numpy compute it on doubles: the remainder of
    [fmod], with 1.0 added when it is negative; a remainder of zero is
    +0.0. *)
Definition mod1 (x : float) : float :=
  let r := fmod1 x in
  if eqb r zero then zero
  else if ltb r zero then add r one
  else r.

#[global] Instance binary64_Num : Num float := {|
  of_Z := float_of_Z;
  nadd := add;
  nsub := sub;
  nmul := mul;
  ndiv := div;
  nopp := opp;
  nltb := ltb;
  neqb := eqb;
  nmod1 := mod1
|}.

(** The double that the decimal literal [m]e-[k] denotes: for [m] and
    10^[k] below 2^53 both are doubles, and their quotient is rounded
    once, as the literal is. *)
Definition decimal (m : Z) (k : nat) : float :=
  div (float_of_Z m) (float_of_Z (10 ^ Z.of_nat k)).

(** An object with one included signal, observed at times 1.0, 2.0 and
    3.0, so that [tshift] is -2.0; the frequencies are in cycles per unit
    of time, so that [freq_conversion] is 1.0. *)
Definition observed : Pyriod float :=
  let t := [float_of_Z 1; float_of_Z 2; float_of_Z 3] in
  let y := [zero; zero; zero] in
  mkPyriod (mkSeries t y) (mkSeries t y) (mkSeries t y) (mkSeries t y)
           [] [] [] []
           [("f0", mkRow true (decimal 1 1) false None (decimal 1 3) false
                         None (decimal 5 1) false None)].

Definition tshift : float := float_of_Z (-2).

Definition freq_conversion : float := float_of_Z 1.

(** A fit outcome for it: frequency 0.1, amplitude -0.25, phase 0.7. *)
Definition outcome : Parameters float :=
  [("f0freq", mkParam (Some (decimal 1 1)) true None (Some (decimal 1 2)));
   ("f0amp", mkParam (Some (decimal (-25) 2)) true None
                     (Some (decimal 1 2)));
   ("f0phase", mkParam (Some (decimal 7 1)) true None (Some (decimal 1 2)))].

End Binary64.

(** ** Vocabulary for the further properties *)

(** The keys of a table that has only ever grown by automatic keys. *)
Definition auto_keys (n : nat) : list string :=
  map (fun i => ("f" ++ format_nat i)%string) (seq 0 n).

Definition auto_keyed {num} (t : table num) : Prop :=
  index_of t = auto_keys (List.length t).

(** A string with an operator character in it, and a string with every
    occurrence of one character taken out. *)
Definition has_operator (s : string) : bool :=
  existsb is_operator (list_ascii_of_string s).

Definition without (c : ascii) (s : string) : string :=
  string_of_list_ascii
    (filter (fun x => negb (Ascii.eqb x c)) (list_ascii_of_string s)).

Definition without_operators (s : string) : string :=
  string_of_list_ascii
    (filter (fun x => negb (is_operator x)) (list_ascii_of_string s)).

(** [demo_gui] with one signal that is excluded from the fit: it was
    added with [include=False]. *)
Definition excluded_gui : Gui.state Q unit :=
  gui_run stalled_fit
    [Gui.AddSignal 1%Q None None false false false false None] demo_gui.

(** The keys of a table with the flags of each row, and with the three
    numbers of each row that describe its sinusoid. *)
Definition flag_column {num} (t : table num)
  : list (string * (bool * bool * bool * bool)) :=
  map (fun kr => (fst kr, (include (snd kr), fixfreq (snd kr),
                           fixamp (snd kr), fixphase (snd kr)))) t.

(** The flags of the rows that a table has under a key. *)
Definition flags_at {num} (key : string) (t : table num)
  : list (bool * bool * bool * bool) :=
  map (fun r => (include r, fixfreq r, fixamp r, fixphase r)) (rows_at key t).

Definition signal_column {num} (t : table num)
  : list (string * (num * num * num)) :=
  map (fun kr => (fst kr, (freq (snd kr), amp (snd kr), phase (snd kr)))) t.

(** ** The periodogram canvas

    The line [perplot_orig] is drawn once, at line 205, from [self.freqs]
    and the powers of the original periodogram, so it has one ordinate for
    each frequency: it is kept as a list of points.  An ordinate that is
    not a number (the power at frequency zero can be [nan]) is [None]. *)

Definition point : Type := (Q * option Q)%type.

(** [np.argwhere(mask)] for a one-dimensional mask: the positions where it
    holds, in ascending order. *)
Fixpoint argwhere_from {A} (p : A -> bool) (i : nat) (l : list A)
  : list nat :=
  match l with
  | [] => []
  | a :: l' =>
      if p a then i :: argwhere_from p (S i) l'
      else argwhere_from p (S i) l'
  end.

Definition argwhere {A} (p : A -> bool) (l : list A) : list nat :=
  argwhere_from p 0 l.

(** [np.nanargmax]: the position of the first largest entry among those
    that are numbers; [ValueError] when there is none. *)
Fixpoint nanargmax_from (best : option (nat * Q)) (i : nat)
  (l : list (option Q)) : option (nat * Q) :=
  match l with
  | [] => best
  | None :: l' => nanargmax_from best (S i) l'
  | Some y :: l' =>
      match best with
      | None => nanargmax_from (Some (i, y)) (S i) l'
      | Some (_, b) =>
          if Qle_bool y b then nanargmax_from best (S i) l'
          else nanargmax_from (Some (i, y)) (S i) l'
      end
  end.

Definition nanargmax (l : list (option Q)) : result nat :=
  match nanargmax_from None 0 l with
  | Some (k, _) => Ok k
  | None => Raise ValueError
  end.

(** [(self.freqs >= x - tolerance) & (self.freqs <= x + tolerance)] at one
    point of the line. *)
Definition near (xdata tolerance : Q) (pt : point) : bool :=
  Qle_bool (xdata - tolerance) (fst pt) && Qle_bool (fst pt) (xdata + tolerance).

(** The branch of [onperiodogramclick] that snaps to a peak (lines
    842-847), given the tolerance that line 841 computes.  The positions
    in [nearby] come from the line itself and [highestind] is at most the
    last of them, so neither indexing can leave the line. *)
Definition snap (line : list point) (tolerance xdata : Q) : result point :=
  let nearby := argwhere (near xdata tolerance) line in
  let ydata := map snd line in
  match nanargmax (map (fun i => nth i ydata None) nearby) with
  | Ok k =>
      let highestind := (k + hd 0 nearby)%nat in
      Ok (nth highestind (map fst line) 0%Q, nth highestind ydata None)
  | Raise e => Raise e
  end.

(** [onperiodogramclick] (lines 837-849) for a click inside the axes: the
    position and height that it hands to [update_marker]. *)
Definition onperiodogramclick (snaptopeak : bool) (tolerance : Q)
  (line : list point) (interpls : Q -> result Q) (xdata : Q) : result point :=
  if snaptopeak then snap line tolerance xdata
  else match interpls xdata with
       | Ok y => Ok (xdata, Some y)
       | Raise e => Raise e
       end.

(** The two flags that tell a click from a drag (lines 249-250). *)
Record mouse : Type := mkMouse { _press : bool; _move : bool }.

Inductive canvas_event (E : Type) : Type :=
| button_press_event (event : E)
| motion_notify_event (event : E)
| button_release_event (event : E).
Arguments button_press_event {E} event.
Arguments motion_notify_event {E} event.
Arguments button_release_event {E} event.

Section Canvas.
Context {Obj E : Type}.

(** What a click does to the rest of the object ([onclick], line 881). *)
Variable onclick : E -> M Obj unit.

(** A computation on the rest of the object, with the flags kept. *)
Definition on_object {A} (c : M Obj A) : M (mouse * Obj) A :=
  fun ms => let (r, s') := c (snd ms) in (r, (fst ms, s')).

Definition set_mouse (m : mouse) : M (mouse * Obj) unit :=
  fun ms => (Ok tt, (m, snd ms)).

(** [onpress], [onmove] and [onrelease] (lines 883-891). *)
Definition onpress (event : E) : M (mouse * Obj) unit :=
  ms <- get ;;
  set_mouse (mkMouse true (_move (fst ms))).

Definition onmove (event : E) : M (mouse * Obj) unit :=
  ms <- get ;;
  if _press (fst ms) then set_mouse (mkMouse (_press (fst ms)) true)
  else ret tt.

Definition onrelease (event : E) : M (mouse * Obj) unit :=
  ms <- get ;;
  (if _press (fst ms) && negb (_move (fst ms))
   then on_object (onclick event)
   else ret tt) ;;;
  set_mouse (mkMouse false false).

(** The callbacks connected at lines 251-253. *)
Definition dispatch (ev : canvas_event E) : M (mouse * Obj) unit :=
  match ev with
  | button_press_event e => onpress e
  | motion_notify_event e => onmove e
  | button_release_event e => onrelease e
  end.

(** A sequence of events; a callback that raises leaves the state it
    reached. *)
Definition deliver (evs : list (canvas_event E)) (ms : mouse * Obj)
  : mouse * Obj :=
  fold_left (fun st ev => snd (dispatch ev st)) evs ms.

End Canvas.

Definition is_release {E} (ev : canvas_event E) : bool :=
  match ev with button_release_event _ => true | _ => false end.

Definition is_motion {E} (ev : canvas_event E) : bool :=
  match ev with motion_notify_event _ => true | _ => false end.

(** The events that follow the first press, if there is a press. *)
Fixpoint after_press {E} (evs : list (canvas_event E))
  : option (list (canvas_event E)) :=
  match evs with
  | [] => None
  | button_press_event _ :: rest => Some rest
  | _ :: rest => after_press rest
  end.

(** The button went down and the pointer did not move afterwards. *)
Definition still_press {E} (evs : list (canvas_event E)) : bool :=
  match after_press evs with
  | Some rest => negb (existsb is_motion rest)
  | None => false
  end.

(** A click sets the marker (lines 870-878), from a line and a tolerance
    that stay the same. *)
Definition set_marker (snaptopeak : bool) (tolerance : Q) (line : list point)
  (interpls : Q -> result Q) (xdata : Q) : M point unit :=
  m <- lift (onperiodogramclick snaptopeak tolerance line interpls xdata) ;;
  put m.

(** A line with a peak of height 3 at frequency 1/2. *)
Definition demo_line : list point :=
  [(0, None); (1 # 4, Some 1); (1 # 2, Some 3); (3 # 4, Some 2);
   (1, Some (1 # 2))]%Q.

(** * Properties *)

(** ** The monad *)

Section Monad.
Context {S : Type}.

Lemma maintains_ret {A} (I : S -> Prop) (a : A) : maintains I (ret a).
Proof. intros self HI; exact HI. Qed.

Lemma maintains_lift {A} (I : S -> Prop) (r : result A) : maintains I (lift r).
Proof. intros self HI; exact HI. Qed.

Lemma maintains_get (I : S -> Prop) : maintains I get.
Proof. intros self HI; exact HI. Qed.

Lemma maintains_bind {A B} (I : S -> Prop) (c : M S A) (k : A -> M S B) :
  maintains I c -> (forall a, maintains I (k a)) -> maintains I (bind c k).
Proof.
  intros Hc Hk self HI. unfold bind. specialize (Hc self HI).
  destruct (c self) as [[a|e] s']; cbn in *.
  - apply Hk. exact Hc.
  - exact Hc.
Qed.

Lemma maintains_for_each {A} (I : S -> Prop) (xs : list A)
  (body : A -> M S unit) :
  (forall x, maintains I (body x)) -> maintains I (for_each xs body).
Proof.
  intro Hb. induction xs as [|x xs IH]; cbn.
  - apply maintains_ret.
  - apply maintains_bind; [apply Hb|intros _; exact IH].
Qed.

Lemma bind_ret {A B} (a : A) (k : A -> M S B) (s : S) : bind (ret a) k s = k a s.
Proof. reflexivity. Qed.

Lemma bind_get {B} (k : S -> M S B) (s : S) : bind get k s = k s s.
Proof. reflexivity. Qed.

Lemma bind_lift_ok {A B} (a : A) (k : A -> M S B) (s : S) :
  bind (lift (Ok a)) k s = k a s.
Proof. reflexivity. Qed.

Lemma bind_lift {A B} (r : result A) (k : A -> M S B) (s : S) :
  bind (lift r) k s
  = match r with Ok a => k a s | Raise e => (Raise e, s) end.
Proof. destruct r; reflexivity. Qed.

Lemma bind_assoc {A B C} (c : M S A) (k : A -> M S B) (k' : B -> M S C)
  (s : S) :
  bind (bind c k) k' s = bind c (fun a => bind (k a) k') s.
Proof. unfold bind. destruct (c s) as [[a|e] s']; reflexivity. Qed.

End Monad.

(** ** Adding a signal *)

Section SignalFacts.
Context {num : Type} `{Num num}.
Variable amp_conversion : num.

Lemma add_signal_run (f : num) (a p : option num) (ff fa fp inc : bool)
  (idx : option string) (self : Pyriod num) :
  add_signal amp_conversion f a p ff fa fp inc idx self
  = (Ok tt,
     set_values
       (values self ++
        [(match idx with
          | None => ("f" ++ format_nat (List.length (values self)))%string
          | Some i => i
          end,
          mkRow inc f ff None
            (ndiv (match a with None => of_Z 1 | Some a => a end) amp_conversion)
            fa None (match p with None => half | Some p => p end) fp None)])
       self).
Proof. reflexivity. Qed.

End SignalFacts.

Section GuiSignal.
Context {num W : Type} `{Num num}.
Variable amp_conversion : num.
Variable combine_first : table num -> table num -> result (table num).
Variable _update_freq_dropdown : table num -> M W unit.
Variable _update_signal_markers : table num -> M W unit.

Local Abbreviation add_signal' :=
  (Gui.add_signal amp_conversion combine_first _update_freq_dropdown
     _update_signal_markers).

Lemma on_obj_run {A} (c : M (Pyriod num) A) (g : Gui.state num W) :
  Gui.on_obj c g
  = (fst (c (Gui.obj g)),
     Gui.mkState (snd (c (Gui.obj g))) (Gui.signals_qgrid_df g)
       (Gui.widgets g)).
Proof. unfold Gui.on_obj. destruct (c (Gui.obj g)). reflexivity. Qed.

Lemma on_widgets_run {A} (c : M W A) (g : Gui.state num W) :
  Gui.on_widgets c g
  = (fst (c (Gui.widgets g)),
     Gui.mkState (Gui.obj g) (Gui.signals_qgrid_df g)
       (snd (c (Gui.widgets g)))).
Proof. unfold Gui.on_widgets. destruct (c (Gui.widgets g)). reflexivity. Qed.

(** The method step by step: the row is appended, then the three widget
    steps run, and the first of them that raises ends the call. *)
Lemma gui_add_signal_run (f : num) (a p : option num) (ff fa fp inc : bool)
  (idx : option string) (g : Gui.state num W) :
  let self' :=
    snd (add_signal amp_conversion f a p ff fa fp inc idx (Gui.obj g)) in
  add_signal' f a p ff fa fp inc idx g
  = match _update_freq_dropdown (values self') (Gui.widgets g) with
    | (Raise e, w1) =>
        (Raise e, Gui.mkState self' (Gui.signals_qgrid_df g) w1)
    | (Ok _, w1) =>
        match combine_first (Gui.displayframe amp_conversion (values self'))
                (Gui.signals_qgrid_df g) with
        | Raise e => (Raise e, Gui.mkState self' (Gui.signals_qgrid_df g) w1)
        | Ok df =>
            (fst (_update_signal_markers (values self') w1),
             Gui.mkState self' df
               (snd (_update_signal_markers (values self') w1)))
        end
    end.
Proof.
  cbv zeta. unfold Gui.add_signal.
  unfold bind at 1. rewrite on_obj_run, add_signal_run. cbn [fst snd].
  rewrite bind_get. unfold bind at 1. rewrite on_widgets_run.
  cbn [Gui.obj Gui.widgets Gui.signals_qgrid_df fst snd].
  destruct (_update_freq_dropdown _ (Gui.widgets g)) as [[u|e] w1];
    cbn [fst snd]; [|reflexivity].
  rewrite bind_lift.
  destruct (combine_first _ _) as [df|e]; [|reflexivity].
  unfold bind at 1, Gui.set_df. cbn [Gui.obj Gui.widgets Gui.signals_qgrid_df].
  rewrite on_widgets_run. reflexivity.
Qed.

(** C2, as the code has it: [add_signal] checks nothing about the
    frequency and appends the row before anything else can fail.  Whatever
    number is passed and however the call ends, the object afterwards has
    the rows it had, followed by one row with that frequency, and is
    otherwise as before; the call returns exactly when the three widget
    steps that follow the append return. *)
Theorem add_signal_appends_in_every_outcome (f : num) (a p : option num)
  (ff fa fp inc : bool) (idx : option string) (g : Gui.state num W) :
  let out := add_signal' f a p ff fa fp inc idx g in
  exists key r,
    Gui.obj (snd out)
    = set_values (values (Gui.obj g) ++ [(key, r)]) (Gui.obj g)
    /\ freq r = f
    /\ List.length (values (Gui.obj (snd out)))
       = S (List.length (values (Gui.obj g)))
    /\ (fst out = Ok tt <->
        exists w1 df w2,
          _update_freq_dropdown (values (Gui.obj g) ++ [(key, r)])
            (Gui.widgets g) = (Ok tt, w1)
          /\ combine_first
               (Gui.displayframe amp_conversion
                  (values (Gui.obj g) ++ [(key, r)]))
               (Gui.signals_qgrid_df g) = Ok df
          /\ _update_signal_markers (values (Gui.obj g) ++ [(key, r)]) w1
             = (Ok tt, w2)).
Proof.
  cbv zeta. rewrite gui_add_signal_run, add_signal_run. cbn [snd].
  exists (match idx with
          | None => ("f" ++ format_nat (List.length (values (Gui.obj g))))%string
          | Some i => i
          end),
         (mkRow inc f ff None
            (ndiv (match a with None => of_Z 1 | Some a => a end) amp_conversion)
            fa None (match p with None => half | Some p => p end) fp None).
  set (t' := values (Gui.obj g) ++ _).
  assert (Ht' : values (set_values t' (Gui.obj g)) = t') by reflexivity.
  assert (Hlen : List.length t' = S (List.length (values (Gui.obj g))))
    by (subst t'; rewrite length_app; cbn; lia).
  rewrite !Ht'.
  destruct (_update_freq_dropdown t' (Gui.widgets g)) as [[[]|e] w1] eqn:Hd.
  - destruct (combine_first _ _) as [df|e] eqn:Hc.
    + cbn [fst snd Gui.obj]. rewrite Ht'.
      split; [reflexivity|]. split; [reflexivity|]. split; [exact Hlen|].
      split.
      * intro Hm. exists w1, df, (snd (_update_signal_markers t' w1)).
        split; [reflexivity|]. split; [reflexivity|].
        destruct (_update_signal_markers t' w1) as [[[]|e] w2];
          [reflexivity|discriminate Hm].
      * intros (w1' & df' & w2 & Hd' & _ & Hm).
        injection Hd' as <-. rewrite Hm. reflexivity.
    + cbn [fst snd Gui.obj]. rewrite Ht'.
      split; [reflexivity|]. split; [reflexivity|]. split; [exact Hlen|].
      split; [intro Hm; discriminate Hm|].
      intros (w1' & df' & w2 & _ & Hc' & _). discriminate Hc'.
  - cbn [fst snd Gui.obj]. rewrite Ht'.
    split; [reflexivity|]. split; [reflexivity|]. split; [exact Hlen|].
    split; [intro Hm; discriminate Hm|].
    intros (w1' & df' & w2 & Hd' & _). discriminate Hd'.
Qed.

End GuiSignal.

(** C2 fails on the code: the frequency -1.0 is not a positive number,
    yet the call on the demo object returns, and the table has one entry
    afterwards. *)
Lemma add_signal_negative_frequency_not_rejected :
  let out := gui_perform stalled_fit
               (Gui.AddSignal (-1)%Q None None false false false true None)
               demo_gui in
  fst out = Ok tt
  /\ List.length (values (Gui.obj demo_gui)) = 0%nat
  /\ map (fun kr => (fst kr, freq (snd kr))) (values (Gui.obj (snd out)))
     = [("f0", (-1)%Q)].
Proof. cbv zeta. repeat split; vm_compute; reflexivity. Qed.

(** ** Combinations *)

Lemma prefix_blank (c : ascii) (s : string) :
  prefix " " (String c s) = Ascii.eqb c " ".
Proof.
  change (prefix " " (String c s))
    with (if ascii_dec " "%char c then prefix EmptyString s else false).
  destruct (ascii_dec " " c) as [<-|Hne]; [destruct s; reflexivity|].
  symmetry. apply Ascii.eqb_neq. congruence.
Qed.

(** [s.replace(" ", "")] removes the blanks and nothing else. *)
Lemma replace_blanks (s : string) : replace " " "" s = without " " s.
Proof.
  unfold replace, without. induction s as [|c s IH]; [reflexivity|].
  cbn [replace_from]. rewrite prefix_blank.
  cbn [list_ascii_of_string filter].
  destruct (Ascii.eqb c " "); cbn [negb String.length append].
  - exact IH.
  - cbn [string_of_list_ascii]. now rewrite IH.
Qed.

Lemma without_idempotent (c : ascii) (s : string) :
  without c (without c s) = without c s.
Proof.
  unfold without. rewrite list_ascii_of_string_of_list_ascii.
  f_equal. induction (list_ascii_of_string s) as [|x l IH]; [reflexivity|].
  cbn. destruct (Ascii.eqb x c) eqn:Hx; cbn; [exact IH|].
  rewrite Hx. cbn. now rewrite IH.
Qed.

Section GuiCombination.
Context {num W : Type} `{Num num}.
Variable amp_conversion : num.
Variable nyq : num.
Variable interpls : num -> result num.
Variable subfreq : num -> num -> num.
Variable str : num -> string.
Variable eval : Gui.scope num -> string -> M (Gui.state num W) num.
Variable set_order : list string -> list string.
Variable combine_first : table num -> table num -> result (table num).
Variable _update_freq_dropdown : table num -> M W unit.
Variable _update_signal_markers : table num -> M W unit.

Local Abbreviation combination_frequency' :=
  (Gui.combination_frequency str eval set_order).
Local Abbreviation add_combination' :=
  (Gui.add_combination amp_conversion nyq interpls subfreq str eval
     set_order combine_first _update_freq_dropdown _update_signal_markers).
Local Abbreviation add_signal' :=
  (Gui.add_signal amp_conversion combine_first _update_freq_dropdown
     _update_signal_markers).

Lemma combination_frequency_run (text : string) (a p : option num)
  (ff fa fp : bool) (idx : option string) (g : Gui.state num W) :
  let parts := re_split text in
  let keys :=
    set_order (filter (fun part => in_index part (values (Gui.obj g))) parts) in
  combination_frequency' text a p ff fa fp idx g
  = match substitute_keys str keys (values (Gui.obj g)) text with
    | Raise e => (Raise e, g)
    | Ok expression =>
        eval (Gui.mkScope text a p ff fa fp idx parts keys) expression g
    end.
Proof.
  cbv zeta. unfold Gui.combination_frequency. rewrite bind_get.
  rewrite bind_lift. destruct (substitute_keys _ _ _ _); reflexivity.
Qed.

Lemma add_combination_run (combostr : string) (a p : option num)
  (ff fa fp : bool) (idx : option string) (g : Gui.state num W) :
  let text := replace " " "" combostr in
  add_combination' combostr a p ff fa fp idx g
  = match combination_frequency' text a p ff fa fp idx g with
    | (Raise e, g1) => (Raise e, g1)
    | (Ok v, g1) =>
        match match a with
              | None => interpls (subfreq v nyq)
              | Some a => Ok a
              end with
        | Raise e => (Raise e, g1)
        | Ok a' =>
            add_signal' v (Some a') None false false false true (Some text) g1
        end
    end.
Proof.
  cbv zeta. unfold Gui.add_combination. unfold bind at 1.
  destruct (Gui.combination_frequency _ _ _ _ _ _ _ _ _ _ _)
    as [[v|e] g1]; [|reflexivity].
  destruct a as [a|].
  - unfold bind at 1, ret. reflexivity.
  - rewrite bind_lift. destruct (interpls _); reflexivity.
Qed.

(** C3, as the code has it: [add_combination] checks no token.  The
    text, with the frequencies of the keys it names put in, is handed to
    [eval], and whatever that raises is what the call raises (for a name
    that is bound to nothing a NameError).  The method itself has done
    nothing to the object by then: the state is the one the evaluation
    left, so the table is unchanged whenever the evaluated text has no
    effect of its own. *)
Theorem add_combination_failure_leaves_table (combostr : string)
  (a p : option num) (ff fa fp : bool) (idx : option string)
  (g g1 : Gui.state num W) (e : exn) :
  let text := replace " " "" combostr in
  let parts := re_split text in
  let keys :=
    set_order (filter (fun part => in_index part (values (Gui.obj g))) parts) in
  (substitute_keys str keys (values (Gui.obj g)) text = Raise e /\ g1 = g)
  \/ (exists expression,
        substitute_keys str keys (values (Gui.obj g)) text = Ok expression
        /\ eval (Gui.mkScope text a p ff fa fp idx parts keys) expression g
           = (Raise e, g1)) ->
  add_combination' combostr a p ff fa fp idx g = (Raise e, g1)
  /\ (g1 = g ->
      values (Gui.obj (snd (add_combination' combostr a p ff fa fp idx g)))
      = values (Gui.obj g)).
Proof.
  cbv zeta. intros Hfail.
  assert (Hrun : add_combination' combostr a p ff fa fp idx g = (Raise e, g1)).
  { rewrite add_combination_run, combination_frequency_run.
    destruct Hfail as [[Hsub ->]|(expression & Hsub & Heval)]; rewrite Hsub.
    - reflexivity.
    - rewrite Heval. reflexivity. }
  split; [exact Hrun|]. intros ->. rewrite Hrun. reflexivity.
Qed.



End GuiCombination.

(** A name that is bound to nothing: the evaluation raises NameError, and
    so does the call, with the object as it was. *)
Lemma add_combination_failure_leaves_table_witness :
  gui_perform stalled_fit
    (Gui.AddCombination "f1 + zz" None None false false false None)
    three_signals
  = (Raise NameError, three_signals)
  /\ (three_signals = three_signals ->
      values (Gui.obj (snd (gui_perform stalled_fit
               (Gui.AddCombination "f1 + zz" None None false false false None)
               three_signals)))
      = values (Gui.obj three_signals)).
Proof.
  apply (add_combination_failure_leaves_table demo_amp_conversion demo_nyq
           demo_interpls demo_subfreq str_Q demo_eval demo_set_order
           (sorted_combine_first Q_isnull) accepting accepting
           "f1 + zz" None None false false false None
           three_signals three_signals NameError).
  right. exists "3.0+zz"%string. split; vm_compute; reflexivity.
Defined.

(** C3 fails on the code: in [f1+f10], with entries f0, f1 and f2 only,
    the token [f10] is neither a number nor a key.  The call returns, and
    the table has a new entry, at 3.0 + 3.00. *)
Lemma add_combination_unknown_token_accepted :
  let out := gui_perform stalled_fit
               (Gui.AddCombination "f1+f10" None None false false false None)
               three_signals in
  in_index "f10" (values (Gui.obj three_signals)) = false
  /\ fst out = Ok tt
  /\ freq_column (values (Gui.obj (snd out)))
     = [("f0", 1); ("f1", 3); ("f2", 5); ("f1+f10", 6)]%Q.
Proof. cbv zeta. repeat split; vm_compute; reflexivity. Qed.



(** ** What a session keeps *)

Section Frames.
Context {num : Type} `{Num num} `{Trig num}.
Variable amp_conversion : num.
Variable freq_conversion : num.
Variable tshift : num.
Variable to_periodogram : series num -> list num -> list num.

Lemma maintains_modify_values (I : Pyriod num -> Prop)
  (f : table num -> table num) :
  table_blind I -> maintains I (modify_values f).
Proof. intros HI self Hs. apply HI. exact Hs. Qed.

Lemma maintains_read_values {A} (I : Pyriod num -> Prop) (key : string)
  (col : row num -> A) : maintains I (read_values key col).
Proof.
  unfold read_values. apply maintains_bind; [apply maintains_get|].
  intro; apply maintains_lift.
Qed.

Lemma maintains_add_signal (I : Pyriod num -> Prop) (f : num)
  (a p : option num) (ff fa fp inc : bool) (idx : option string) :
  table_blind I -> maintains I (add_signal amp_conversion f a p ff fa fp inc idx).
Proof. intros HI self Hs. rewrite add_signal_run. apply HI. exact Hs. Qed.

Lemma maintains_delete_rows (I : Pyriod num -> Prop) (indices : list string) :
  table_blind I -> maintains I (delete_rows indices).
Proof.
  intros HI self Hs. unfold delete_rows, bind, get, lift, put.
  destruct (drop indices (values self)); cbn; [apply HI|]; exact Hs.
Qed.

Lemma maintains_update_lcs (I : Pyriod num -> Prop) :
  model_blind I -> maintains I (_update_lcs freq_conversion).
Proof.
  intros HI self Hs. unfold _update_lcs. rewrite bind_get. cbv zeta.
  destruct (fst (add_signals _ _ _ _ _)); unfold bind, put, raise; cbn;
    apply HI; exact Hs.
Qed.

Lemma maintains_update_entry (I : Pyriod num -> Prop) (ps : Parameters num)
  (prefixmap : list (string * string)) (prefix : string) :
  table_blind I ->
  maintains I (update_entry freq_conversion tshift ps prefixmap prefix).
Proof.
  intro HI. unfold update_entry.
  repeat first
    [ apply maintains_lift
    | apply maintains_ret
    | apply maintains_modify_values; exact HI
    | apply maintains_read_values
    | apply maintains_bind; [|intro]
    | match goal with |- maintains _ (if ?b then _ else _) => destruct b end ].
Qed.

(** The two recomputation steps keep the table. *)
Lemma update_lcs_values (t : table num) :
  maintains (fun self => values self = t) (_update_lcs freq_conversion).
Proof. apply maintains_update_lcs. intros a b c self Hs. exact Hs. Qed.

Lemma update_pers_values (t : table num) :
  maintains (fun self => values self = t)
    (_update_pers amp_conversion to_periodogram).
Proof. intros self Hs. exact Hs. Qed.

(** *** The invariant of a session *)

Lemma settled_table_blind o :
  table_blind (settled amp_conversion to_periodogram o).
Proof. intros t self Hs. exact Hs. Qed.

Lemma settled_model_blind o :
  model_blind (settled amp_conversion to_periodogram o).
Proof. intros a b c self Hs. exact Hs. Qed.

Lemma settled_update_pers o :
  maintains (settled amp_conversion to_periodogram o)
    (_update_pers amp_conversion to_periodogram).
Proof.
  intros self [Ho _]. split; [exact Ho|].
  unfold _update_pers, bind, get, put; cbn.
  assert (Hg : freqs self = snd o) by (rewrite <- Ho; reflexivity).
  rewrite Hg. split; eexists; reflexivity.
Qed.

End Frames.

Section GuiFrames.
Context {num W : Type} `{Num num} `{Trig num}.
Variable amp_conversion : num.
Variable nyq : num.
Variable freq_conversion : num.
Variable tshift : num.
Variable interpls : num -> result num.
Variable subfreq : num -> num -> num.
Variable str : num -> string.
Variable eval : Gui.scope num -> string -> M (Gui.state num W) num.
Variable set_order : list string -> list string.
Variable model_fit :
  list string -> list num -> Parameters num -> list num
  -> result (ModelResult num).
Variable to_periodogram : series num -> list num -> list num.
Variable combine_first : table num -> table num -> result (table num).
Variable _update_freq_dropdown : table num -> M W unit.
Variable _update_signal_markers : table num -> M W unit.
Variable _update_lc_display : Pyriod num -> M W unit.
Variable describe_changes : table num -> table num -> result unit.

(** A property of the object, read off the state of the interface. *)
Variable I : Pyriod num -> Prop.

Local Abbreviation of_obj := (fun g : Gui.state num W => I (Gui.obj g)).

Lemma maintains_on_obj {A} (c : M (Pyriod num) A) :
  maintains I c -> maintains of_obj (Gui.on_obj c).
Proof. intros Hc g Hg. rewrite on_obj_run. cbn. apply Hc. exact Hg. Qed.

Lemma maintains_on_widgets {A} (c : M W A) :
  maintains of_obj (Gui.on_widgets c).
Proof. intros g Hg. rewrite on_widgets_run. exact Hg. Qed.

Lemma maintains_set_df (df : table num) : maintains of_obj (Gui.set_df df).
Proof. intros g Hg. exact Hg. Qed.

Hypothesis I_table_blind : table_blind I.
Hypothesis I_model_blind : model_blind I.
Hypothesis I_update_pers :
  maintains I (_update_pers amp_conversion to_periodogram).

(** The evaluation of a combination leaves the property alone. *)
Hypothesis I_eval : forall sc text, maintains of_obj (eval sc text).

Ltac frame_step :=
  first
    [ apply maintains_get
    | apply maintains_lift
    | apply maintains_ret
    | apply maintains_set_df
    | apply maintains_on_widgets
    | apply I_eval
    | apply maintains_on_obj;
      first
        [ apply maintains_add_signal; exact I_table_blind
        | apply maintains_delete_rows; exact I_table_blind
        | apply maintains_modify_values; exact I_table_blind
        | apply maintains_update_lcs; exact I_model_blind
        | exact I_update_pers ]
    | apply maintains_bind; [|intro] ].

Lemma frame_add_signal (f : num) (a p : option num) (ff fa fp inc : bool)
  (idx : option string) :
  maintains of_obj
    (Gui.add_signal amp_conversion combine_first _update_freq_dropdown
       _update_signal_markers f a p ff fa fp inc idx).
Proof. unfold Gui.add_signal. repeat frame_step. Qed.

Lemma frame_delete_rows (indices : list string) :
  maintains of_obj (Gui.delete_rows indices).
Proof. unfold Gui.delete_rows. repeat frame_step. Qed.

Lemma frame_add_combination (combostr : string) (a p : option num)
  (ff fa fp : bool) (idx : option string) :
  maintains of_obj
    (Gui.add_combination amp_conversion nyq interpls subfreq str eval
       set_order combine_first _update_freq_dropdown _update_signal_markers
       combostr a p ff fa fp idx).
Proof.
  unfold Gui.add_combination, Gui.combination_frequency.
  apply maintains_bind; [repeat frame_step|intro].
  apply maintains_bind; [destruct a; repeat frame_step|intro].
  apply frame_add_signal.
Qed.

Lemma frame_update_values_from_qgrid :
  maintains of_obj
    (Gui._update_values_from_qgrid amp_conversion freq_conversion
       to_periodogram _update_signal_markers _update_lc_display).
Proof. unfold Gui._update_values_from_qgrid. repeat frame_step. Qed.

Lemma frame_qgrid_changed_manually (changed_df : table num) :
  maintains of_obj
    (Gui._qgrid_changed_manually amp_conversion freq_conversion
       to_periodogram combine_first _update_signal_markers
       _update_lc_display describe_changes changed_df).
Proof.
  unfold Gui._qgrid_changed_manually.
  do 4 (apply maintains_bind; [frame_step|intro]).
  apply frame_update_values_from_qgrid.
Qed.

Lemma frame_update_values_from_fit (ps : Parameters num)
  (prefixmap : list (string * string)) :
  maintains of_obj
    (Gui._update_values_from_fit amp_conversion freq_conversion tshift
       to_periodogram combine_first _update_freq_dropdown
       _update_signal_markers _update_lc_display ps prefixmap).
Proof.
  unfold Gui._update_values_from_fit.
  apply maintains_bind.
  { apply maintains_on_obj. unfold Gui.update_loop.
    apply maintains_bind; [apply maintains_get|intro].
    apply maintains_for_each; intro.
    apply maintains_update_entry, I_table_blind. }
  intro.
  do 4 (apply maintains_bind; [frame_step|intro]).
  apply frame_update_values_from_qgrid.
Qed.

Lemma frame_fit_model :
  maintains of_obj
    (Gui.fit_model amp_conversion freq_conversion tshift set_order model_fit
       to_periodogram combine_first _update_freq_dropdown
       _update_signal_markers _update_lc_display).
Proof.
  unfold Gui.fit_model.
  apply maintains_bind; [apply maintains_get|intro g].
  destruct (included (values (Gui.obj g))); [apply maintains_ret|].
  repeat (apply maintains_bind; [apply maintains_lift|intro]).
  apply frame_update_values_from_fit.
Qed.

Lemma frame_perform (c : Gui.call num) :
  maintains of_obj
    (Gui.perform amp_conversion nyq freq_conversion tshift interpls subfreq
       str eval set_order model_fit to_periodogram combine_first
       _update_freq_dropdown _update_signal_markers _update_lc_display
       describe_changes c).
Proof.
  destruct c; cbn [Gui.perform].
  - apply frame_add_signal.
  - apply frame_add_combination.
  - apply frame_delete_rows.
  - apply frame_fit_model.
  - apply frame_qgrid_changed_manually.
  - apply maintains_on_obj, I_update_pers.
Qed.

Lemma frame_run (cs : list (Gui.call num)) (g : Gui.state num W) :
  I (Gui.obj g) ->
  I (Gui.obj
       (Gui.run amp_conversion nyq freq_conversion tshift interpls subfreq
          str eval set_order model_fit to_periodogram combine_first
          _update_freq_dropdown _update_signal_markers _update_lc_display
          describe_changes cs g)).
Proof.
  unfold Gui.run. revert g.
  induction cs as [|c cs IH]; intros g Hg; cbn; [exact Hg|].
  apply IH. apply (frame_perform c g). exact Hg.
Qed.

End GuiFrames.

Section GuiSession.
Context {num W : Type} `{Num num} `{Trig num}.
Variable amp_conversion : num.
Variable nyq : num.
Variable freq_conversion : num.
Variable tshift : num.
Variable interpls : num -> result num.
Variable subfreq : num -> num -> num.
Variable str : num -> string.
Variable eval : Gui.scope num -> string -> M (Gui.state num W) num.
Variable set_order : list string -> list string.
Variable model_fit :
  list string -> list num -> Parameters num -> list num
  -> result (ModelResult num).
Variable to_periodogram : series num -> list num -> list num.
Variable combine_first : table num -> table num -> result (table num).
Variable _update_freq_dropdown : table num -> M W unit.
Variable _update_signal_markers : table num -> M W unit.
Variable _update_lc_display : Pyriod num -> M W unit.
Variable describe_changes : table num -> table num -> result unit.

Lemma settled_harmless o :
  harmless eval ->
  forall sc text,
    maintains
      (fun g : Gui.state num W =>
         settled amp_conversion to_periodogram o (Gui.obj g))
      (eval sc text).
Proof.
  intros Heval sc text g [Ho [Hm Hr]].
  destruct (Heval sc text g) as (Ho' & Hm' & Hr').
  split; [congruence|]. split; [rewrite Hm'; exact Hm|rewrite Hr'; exact Hr].
Qed.


End GuiSession.



(** ** Keys *)

(** C4 on the code, at a table that has seen a deletion: after three
    signals and the deletion of [f0] the table holds [f1] and [f2]; the
    next automatic key is built from the row count, 2, so it is [f2] again
    and not the next unused label, and the keys are no longer unique. *)
Lemma auto_key_repeats_after_deletion :
  let self := snd (demo_perform (AddFreq 4%Q) after_deletion) in
  fst (demo_perform (AddFreq 4%Q) after_deletion) = Ok tt
  /\ index_of (values after_deletion) = ["f1"; "f2"]
  /\ index_of (values self) = ["f1"; "f2"; "f2"]
  /\ ~ NoDup (index_of (values self)).
Proof.
  cbv zeta. repeat split; try (vm_compute; reflexivity).
  intro Hnd.
  change (index_of (values (snd (demo_perform (AddFreq 4%Q) after_deletion))))
    with ["f1"; "f2"; "f2"] in Hnd.
  inversion Hnd as [|x l Hin Hnd']; subst.
  inversion Hnd' as [|x l Hin' _]; subst.
  apply Hin'. left. reflexivity.
Qed.

(** C8 on the code, at the same table: [add_signal] labels the new row [f2]
    like the row already there, and [delete_rows(['f2'])] then removes
    both, so the table is not back in its prior state. *)
Lemma add_then_delete_loses_row :
  let added := snd (demo_perform (AddFreq 4%Q) after_deletion) in
  let deleted := demo_perform (DeleteRows ["f2"]) added in
  index_of (values after_deletion) = ["f1"; "f2"]
  /\ index_of (values added) = ["f1"; "f2"; "f2"]
  /\ fst deleted = Ok tt
  /\ index_of (values (snd deleted)) = ["f1"]
  /\ values (snd deleted) <> values after_deletion.
Proof.
  cbv zeta. repeat split; try (vm_compute; reflexivity).
  intro Heq. apply (f_equal (@List.length _)) in Heq.
  vm_compute in Heq. discriminate Heq.
Qed.


(** ** The fit *)

Section TableFacts.
Context {num : Type}.

Lemma rows_at_map (h : string -> row num -> row num) (key : string)
  (t : table num) :
  rows_at key (map (fun kr => (fst kr, h (fst kr) (snd kr))) t)
  = map (h key) (rows_at key t).
Proof.
  unfold rows_at. induction t as [|[k r] t IH]; [reflexivity|]. cbn.
  destruct (String.eqb key k) eqn:Hk; cbn; [|exact IH].
  apply String.eqb_eq in Hk. subst k. now rewrite IH.
Qed.

Lemma loc_set_as_map (key : string) (upd : row num -> row num) (t : table num) :
  loc_set key upd t
  = map (fun kr => (fst kr,
                    (fun k r => if String.eqb key k then upd r else r)
                      (fst kr) (snd kr))) t.
Proof.
  unfold loc_set. apply map_ext. intros [k r]. cbn.
  destruct (String.eqb key k); reflexivity.
Qed.

Lemma rows_at_loc_set (key : string) (upd : row num -> row num) (t : table num) :
  rows_at key (loc_set key upd t) = map upd (rows_at key t).
Proof.
  rewrite loc_set_as_map.
  rewrite (rows_at_map (fun k r => if String.eqb key k then upd r else r)).
  rewrite String.eqb_refl. reflexivity.
Qed.

Lemma rows_at_loc_set_length (key key' : string) (upd : row num -> row num)
  (t : table num) :
  List.length (rows_at key' (loc_set key upd t)) = List.length (rows_at key' t).
Proof.
  rewrite loc_set_as_map.
  rewrite (rows_at_map (fun k r => if String.eqb key k then upd r else r)).
  apply length_map.
Qed.

Lemma loc_set_loc_set (key : string) (f g : row num -> row num) (t : table num) :
  loc_set key g (loc_set key f t) = loc_set key (fun r => g (f r)) t.
Proof.
  unfold loc_set. rewrite map_map. apply map_ext. intros [k r]. cbn.
  destruct (String.eqb key k) eqn:Hk; cbn; [|now rewrite Hk].
  now rewrite Hk.
Qed.

Lemma loc_set_ext (key : string) (f g : row num -> row num) (t : table num) :
  (forall r, f r = g r) -> loc_set key f t = loc_set key g t.
Proof.
  intro Hfg. unfold loc_set. apply map_ext. intros [k r]. cbn.
  now rewrite Hfg.
Qed.

Lemma loc_single {A} (key : string) (col : row num -> A) (t : table num)
  (r : row num) :
  rows_at key t = [r] -> loc key col t = Ok (col r).
Proof. intro Hr. unfold loc. now rewrite Hr. Qed.

Lemma included_In (t : table num) (key : string) (r : row num) :
  rows_at key t = [r] -> include r = true -> In key (included t).
Proof.
  unfold rows_at, included, index_of.
  induction t as [|[k r0] t IH]; cbn; [discriminate|].
  intros Hr Hinc.
  destruct (String.eqb key k) eqn:Hk.
  - apply String.eqb_eq in Hk. subst k. cbn in Hr.
    injection Hr as -> _. rewrite Hinc. left. reflexivity.
  - destruct (include r0); [right|]; now apply IH.
Qed.

Lemma bind_modify_values {B} (f : table num -> table num)
  (k : unit -> M (Pyriod num) B) (self : Pyriod num) :
  bind (modify_values f) k self = k tt (set_values (f (values self)) self).
Proof. reflexivity. Qed.

Lemma bind_read_values {A B} (key : string) (col : row num -> A)
  (k : A -> M (Pyriod num) B) (self : Pyriod num) :
  bind (read_values key col) k self
  = match loc key col (values self) with
    | Ok a => k a self
    | Raise e => (Raise e, self)
    end.
Proof.
  unfold read_values, bind, get, lift.
  destruct (loc key col (values self)); reflexivity.
Qed.

Lemma set_values_set_values (t t' : table num) (self : Pyriod num) :
  set_values t (set_values t' self) = set_values t self.
Proof. reflexivity. Qed.

Lemma values_set_values (t : table num) (self : Pyriod num) :
  values (set_values t self) = t.
Proof. reflexivity. Qed.

Lemma set_values_values (self : Pyriod num) : set_values (values self) self = self.
Proof. destruct self; reflexivity. Qed.

Lemma rows_at_single_loc_set (key key' : string) (upd : row num -> row num)
  (t : table num) :
  (exists r, rows_at key' t = [r]) ->
  exists r, rows_at key' (loc_set key upd t) = [r].
Proof.
  intros [r Hr].
  pose proof (rows_at_loc_set_length key key' upd t) as Hlen.
  rewrite Hr in Hlen.
  destruct (rows_at key' (loc_set key upd t)) as [|r' [|r'' l]];
    try discriminate Hlen.
  exists r'. reflexivity.
Qed.

(** A run of row updates, one key after the other, read row by row: a row
    is updated when its key is among the keys.  The updates are taken to be
    idempotent, as overwriting with fixed numbers is. *)
Lemma fold_loc_set (F : string -> row num -> row num) (ks : list string)
  (t : table num) :
  (forall k r, F k (F k r) = F k r) ->
  fold_left (fun t k => loc_set k (F k) t) ks t
  = map (fun kr => if existsb (String.eqb (fst kr)) ks
                   then (fst kr, F (fst kr) (snd kr)) else kr) t.
Proof.
  intro Hid. revert t.
  induction ks as [|k ks IH]; intro t; cbn [fold_left existsb].
  - rewrite <- (map_id t) at 1. apply map_ext. intros [k r]. reflexivity.
  - rewrite IH. unfold loc_set. rewrite map_map. apply map_ext.
    intros [k0 r]. cbn [fst snd].
    destruct (String.eqb k k0) eqn:Hk.
    + apply String.eqb_eq in Hk. subst k0. cbn [fst snd].
      rewrite String.eqb_refl. cbn [orb].
      destruct (existsb (String.eqb k) ks); [now rewrite Hid|reflexivity].
    + cbn [fst snd]. rewrite String.eqb_sym, Hk. reflexivity.
Qed.

End TableFacts.

(** The round trip does hold when the key of the new row is not in the
    table: deleting that key gives back the object as it was. *)
Lemma drop_appended_fresh {num} (key : string) (r : row num) (t : table num) :
  in_index key t = false -> drop [key] (t ++ [(key, r)]) = Ok t.
Proof.
  intro Hfresh. unfold drop.
  assert (Hin : in_index key (t ++ [(key, r)]) = true).
  { unfold in_index, index_of. rewrite map_app, existsb_app. cbn.
    rewrite String.eqb_refl. apply orb_true_iff. right. reflexivity. }
  cbn [forallb]. rewrite Hin. cbn [andb]. f_equal.
  rewrite filter_app. cbn [filter existsb fst].
  rewrite String.eqb_refl. cbn [orb negb]. rewrite app_nil_r.
  clear Hin. unfold in_index, index_of in Hfresh.
  induction t as [|[k r0] t IH]; [reflexivity|].
  cbn in Hfresh. apply orb_false_iff in Hfresh. destruct Hfresh as [Hk Ht].
  cbn [filter existsb fst]. rewrite String.eqb_sym, Hk. cbn [orb negb].
  now rewrite IH.
Qed.


Section FitFacts.
Context {num : Type} `{Num num} `{Trig num}.
Variable amp_conversion : num.
Variable freq_conversion : num.
Variable tshift : num.
Variable model_fit :
  list string -> list num -> Parameters num -> list num -> result (ModelResult num).
Variable to_periodogram : series num -> list num -> list num.

(** One pass of the loop body over an entry that labels a single row and
    whose parameters are all there: the row is replaced by its normalised
    form and nothing is raised. *)
Lemma update_entry_run (ps : Parameters num)
  (prefixmap : list (string * string)) (prefix : string)
  (self : Pyriod num) (r : row num) (v : fitted num) :
  rows_at prefix (values self) = [r] ->
  fitted_values ps prefixmap prefix = Ok v ->
  update_entry freq_conversion tshift ps prefixmap prefix self
  = (Ok tt,
     set_values
       (loc_set prefix (normalized freq_conversion tshift v) (values self))
       self).
Proof.
  intros Hrow Hfit. unfold fitted_values in Hfit.
  destruct (dict_get prefix prefixmap) as [pre|] eqn:Hpre; [|discriminate].
  destruct (dict_get (pre ++ "freq") ps) as [pf|] eqn:Hpf; [|discriminate].
  destruct (number (value pf)) as [vf|] eqn:Hvf;
    [|destruct (number (stderr pf)), (dict_get (pre ++ "amp") ps); discriminate].
  destruct (number (stderr pf)) as [ef|] eqn:Hef;
    [|destruct (dict_get (pre ++ "amp") ps); discriminate].
  destruct (dict_get (pre ++ "amp") ps) as [pa|] eqn:Hpa; [|discriminate].
  destruct (number (value pa)) as [va|] eqn:Hva;
    [|destruct (number (stderr pa)), (dict_get (pre ++ "phase") ps); discriminate].
  destruct (number (stderr pa)) as [ea|] eqn:Hea;
    [|destruct (dict_get (pre ++ "phase") ps); discriminate].
  destruct (dict_get (pre ++ "phase") ps) as [pp|] eqn:Hpp; [|discriminate].
  destruct (number (value pp)) as [vp|] eqn:Hvp;
    [|destruct (number (stderr pp)); discriminate].
  destruct (number (stderr pp)) as [ep|] eqn:Hep; [|discriminate].
  injection Hfit as <-.
  unfold update_entry.
  rewrite Hpre, bind_lift_ok, Hpf, bind_lift_ok, Hvf, bind_lift_ok.
  rewrite bind_modify_values, Hef, bind_lift_ok, bind_modify_values.
  rewrite Hpa, bind_lift_ok, Hva, bind_lift_ok, bind_modify_values.
  rewrite Hea, bind_lift_ok, bind_modify_values.
  rewrite Hpp, bind_lift_ok, Hvp, bind_lift_ok, bind_modify_values.
  rewrite Hep, bind_lift_ok, bind_modify_values.
  rewrite bind_read_values.
  cbn [values set_values].
  rewrite !loc_set_loc_set.
  rewrite (loc_single prefix amp _ _
             (eq_trans (rows_at_loc_set _ _ _) (f_equal (map _) Hrow))).
  cbn [map amp set_amp set_phaseerr set_phase set_amperr set_freqerr set_freq].
  unfold normalized.
  cbn [fit_amp fit_freq fit_phase fit_amperr fit_freqerr fit_phaseerr].
  destruct (nltb va (of_Z 0)).
  - rewrite bind_assoc, bind_modify_values, bind_modify_values.
    rewrite bind_read_values.
    cbn [values set_values].
    rewrite !loc_set_loc_set.
    rewrite (loc_single prefix freq _ _
               (eq_trans (rows_at_loc_set _ _ _) (f_equal (map _) Hrow))).
    rewrite bind_modify_values. unfold modify_values, bind, get, put.
    cbn [values set_values fst snd].
    rewrite !loc_set_loc_set.
    rewrite !set_values_set_values. reflexivity.
  - rewrite bind_ret.
    rewrite bind_read_values.
    cbn [values set_values].
    rewrite (loc_single prefix freq _ _
               (eq_trans (rows_at_loc_set _ _ _) (f_equal (map _) Hrow))).
    rewrite bind_modify_values. unfold modify_values, bind, get, put.
    cbn [values set_values fst snd].
    rewrite !loc_set_loc_set.
    rewrite !set_values_set_values. reflexivity.
Qed.

Lemma normalized_at_idempotent (ps : Parameters num)
  (prefixmap : list (string * string)) (k : string) (r : row num) :
  normalized_at freq_conversion tshift ps prefixmap k
    (normalized_at freq_conversion tshift ps prefixmap k r)
  = normalized_at freq_conversion tshift ps prefixmap k r.
Proof.
  unfold normalized_at. destruct (fitted_values ps prefixmap k); reflexivity.
Qed.

(** The loop of [_update_values_from_fit] over keys that each label a single
    row and have all their parameters: it runs to its end and leaves the
    committed table. *)
Lemma for_each_update_entry (ps : Parameters num)
  (prefixmap : list (string * string)) (ks : list string)
  (self : Pyriod num) :
  (forall k, In k ks -> exists r, rows_at k (values self) = [r]) ->
  (forall k, In k ks -> exists v, fitted_values ps prefixmap k = Ok v) ->
  for_each ks (update_entry freq_conversion tshift ps prefixmap) self
  = (Ok tt,
     set_values
       (fold_left
          (fun t k =>
             loc_set k (normalized_at freq_conversion tshift ps prefixmap k) t)
          ks (values self))
       self).
Proof.
  revert self. induction ks as [|k ks IH]; intros self Hrows Hfits.
  - cbn. now rewrite set_values_values.
  - destruct (Hrows k (or_introl eq_refl)) as [r Hr].
    destruct (Hfits k (or_introl eq_refl)) as [v Hv].
    cbn [for_each fold_left]. unfold bind at 1.
    rewrite (update_entry_run ps prefixmap k self r v Hr Hv).
    rewrite IH.
    + rewrite set_values_set_values, values_set_values.
      do 3 f_equal. apply loc_set_ext. intro r0.
      unfold normalized_at. now rewrite Hv.
    + intros k' Hk'. rewrite values_set_values.
      apply rows_at_single_loc_set. apply Hrows. now right.
    + intros k' Hk'. apply Hfits. now right.
Qed.

(** The table that [_update_values_from_fit] leaves when every included
    entry labels a single row and has all its parameters: the committed
    table after its trip through the display units. *)
Lemma rows_at_convert_to_qgrid (key : string) (t : table num) :
  rows_at key (_convert_values_to_qgrid amp_conversion t)
  = map (fun r =>
           set_amperr (option_map (fun e => nmul e amp_conversion) (amperr r))
             (set_amp (nmul (amp r) amp_conversion) r))
        (rows_at key t).
Proof.
  exact (rows_at_map
           (fun _ r =>
              set_amperr (option_map (fun e => nmul e amp_conversion) (amperr r))
                (set_amp (nmul (amp r) amp_conversion) r)) key t).
Qed.

Lemma rows_at_convert_to_values (key : string) (t : table num) :
  rows_at key (_convert_qgrid_to_values amp_conversion t)
  = map (fun r =>
           set_amperr (option_map (fun e => ndiv e amp_conversion) (amperr r))
             (set_amp (ndiv (amp r) amp_conversion) r))
        (rows_at key t).
Proof.
  exact (rows_at_map
           (fun _ r =>
              set_amperr (option_map (fun e => ndiv e amp_conversion) (amperr r))
                (set_amp (ndiv (amp r) amp_conversion) r)) key t).
Qed.

Lemma rows_at_committed (ps : Parameters num)
  (prefixmap : list (string * string)) (ks : list string) (key : string)
  (t : table num) :
  In key ks ->
  rows_at key (committed freq_conversion tshift ps prefixmap ks t)
  = map (normalized_at freq_conversion tshift ps prefixmap key) (rows_at key t).
Proof.
  intro Hin.
  assert (Hex : existsb (String.eqb key) ks = true).
  { apply existsb_exists. exists key. split; [exact Hin|apply String.eqb_refl]. }
  unfold committed.
  rewrite (map_ext _
             (fun kr => (fst kr,
                (fun k r => if existsb (String.eqb k) ks
                            then normalized_at freq_conversion tshift ps
                                   prefixmap k r
                            else r) (fst kr) (snd kr)))).
  - rewrite (rows_at_map
               (fun k r => if existsb (String.eqb k) ks
                           then normalized_at freq_conversion tshift ps
                                  prefixmap k r
                           else r)).
    now rewrite Hex.
  - intros [k r]. cbn [fst snd]. destruct (existsb (String.eqb k) ks); reflexivity.
Qed.

End FitFacts.

(** ** The constructed object *)

(** The constructor computes the three periodograms on the grid of
    [build_grid] and starts with an empty table. *)
Lemma construct_on_grid (time flux : list Q)
  (freq_conversion oversample_factor amp_conversion : Q)
  (to_periodogram : series Q -> list Q -> list Q) (c : constructed) :
  construct time flux freq_conversion oversample_factor amp_conversion
    to_periodogram = Some c ->
  exists g,
    Grid.build_grid time freq_conversion oversample_factor = Some g
    /\ freqs (object c) = Grid.freqs g
    /\ per_orig (object c)
       = periodogram_on amp_conversion to_periodogram (lc_orig (object c))
           (Grid.freqs g)
    /\ on_grid amp_conversion to_periodogram (freqs (object c)) (object c)
    /\ values (object c) = [].
Proof.
  unfold construct.
  destruct (Grid.build_grid time freq_conversion oversample_factor) as [g|];
    [|discriminate].
  intro Hc. injection Hc as <-. exists g. cbn.
  repeat split; eexists; reflexivity.
Qed.

(** [demo] is the object that the constructor builds from its series. *)
Lemma construct_demo :
  construct [0; 1; 2; 3]%Q [0; 1; 0; -1]%Q demo_freq_conversion 2%Q
    demo_amp_conversion demo_to_periodogram
  = Some (mkConstructed demo demo_tshift (1 # 3)%Q demo_nyq).
Proof. vm_compute. reflexivity. Qed.

(** * Further properties *)

(** ** Splitting and replacing *)

Lemma re_split_nonempty (s : string) : re_split s <> [].
Proof.
  destruct s as [|c s]; cbn; [discriminate|].
  destruct (is_operator c); [discriminate|].
  destruct (re_split s); discriminate.
Qed.

(** [re.split] on the four operators: no piece contains an operator, there
    is one piece more than there are operator characters, and the pieces
    put together are the string without its operators. *)
Theorem re_split_pieces (s : string) :
  Forall (fun part => has_operator part = false) (re_split s)
  /\ List.length (re_split s)
     = S (List.length (filter is_operator (list_ascii_of_string s)))
  /\ String.concat EmptyString (re_split s) = without_operators s.
Proof.
  induction s as [|c s (IHop & IHlen & IHcat)].
  - repeat split. constructor; [reflexivity|constructor].
  - pose proof (re_split_nonempty s) as Hne.
    unfold without_operators in *. cbn [re_split list_ascii_of_string filter].
    destruct (is_operator c) eqn:Hc; cbn [negb].
    + repeat split.
      * constructor; [reflexivity|exact IHop].
      * cbn [List.length]. now rewrite IHlen.
      * destruct (re_split s) as [|p ps]; [congruence|]. exact IHcat.
    + destruct (re_split s) as [|p ps]; [congruence|].
      inversion IHop as [|? ? Hp Hps]; subst.
      repeat split.
      * constructor; [|exact Hps].
        unfold has_operator in *. cbn. now rewrite Hc.
      * exact IHlen.
      * cbn [string_of_list_ascii]. rewrite <- IHcat.
        destruct ps; reflexivity.
Qed.

(** ** Automatic keys *)

Lemma format_nat_inj (n m : nat) : format_nat n = format_nat m -> n = m.
Proof.
  unfold format_nat. intro Heq.
  apply DecimalNat.Unsigned.to_uint_inj.
  pose proof (NilEmpty.usu (Nat.to_uint n)) as Hn.
  pose proof (NilEmpty.usu (Nat.to_uint m)) as Hm.
  rewrite Heq in Hn. congruence.
Qed.

Lemma string_of_uint_digits (d : Decimal.uint) :
  forallb is_digit (list_ascii_of_string (NilEmpty.string_of_uint d)) = true.
Proof. induction d; cbn [NilEmpty.string_of_uint list_ascii_of_string forallb];
  [reflexivity|rewrite IHd; reflexivity ..]. Qed.

Lemma to_uint_nonnil (n : nat) : Nat.to_uint n <> Decimal.Nil.
Proof.
  pose proof (DecimalNat.Unsigned.to_of (Nat.to_uint n)) as Hto.
  rewrite DecimalNat.Unsigned.of_to in Hto. rewrite Hto.
  unfold Decimal.unorm. destruct (Decimal.nzhead (Nat.to_uint n)); discriminate.
Qed.

Lemma format_nat_nonempty (n : nat) : format_nat n <> EmptyString.
Proof.
  unfold format_nat. pose proof (to_uint_nonnil n) as Hn.
  destruct (Nat.to_uint n); [congruence|discriminate ..].
Qed.

Lemma auto_key_inj (n m : nat) :
  ("f" ++ format_nat n)%string = ("f" ++ format_nat m)%string -> n = m.
Proof. cbn. intro Heq. injection Heq as Heq. now apply format_nat_inj. Qed.

Lemma auto_keys_succ (n : nat) :
  auto_keys (S n) = auto_keys n ++ [("f" ++ format_nat n)%string].
Proof. unfold auto_keys. rewrite seq_S, map_app. reflexivity. Qed.

Lemma auto_keys_fresh (n m : nat) :
  (n <= m)%nat -> ~ In ("f" ++ format_nat m)%string (auto_keys n).
Proof.
  intros Hle Hin. unfold auto_keys in Hin. apply in_map_iff in Hin.
  destruct Hin as (i & Heq & Hi). apply auto_key_inj in Heq. subst i.
  apply in_seq in Hi. lia.
Qed.

Lemma auto_keys_NoDup (n : nat) : NoDup (auto_keys n).
Proof.
  induction n as [|n IH]; [constructor|].
  rewrite auto_keys_succ. apply NoDup_app; [exact IH|repeat constructor; intros []|].
  intros k Hk [<-|[]]. revert Hk. apply auto_keys_fresh. lia.
Qed.

Lemma in_index_In {num} (key : string) (t : table num) :
  in_index key t = true <-> In key (index_of t).
Proof.
  unfold in_index. rewrite existsb_exists. split.
  - intros (k & Hk & Heq). apply String.eqb_eq in Heq. now subst k.
  - intro Hin. exists key. split; [exact Hin|apply String.eqb_refl].
Qed.

Section AutoKeys.
Context {num : Type} `{Num num}.
Variable amp_conversion : num.

(** In a table that has only grown by automatic keys (it holds [f0] to
    [f<n-1>] in this order), the key that [add_signal] assigns is not in
    the table yet, and the table it leaves is of the same kind, with all
    its keys different. *)
Theorem auto_keys_unique_without_deletion (f : num) (a p : option num)
  (ff fa fp inc : bool) (self : Pyriod num) :
  auto_keyed (values self) ->
  let key := ("f" ++ format_nat (List.length (values self)))%string in
  let self' := snd (add_signal amp_conversion f a p ff fa fp inc None self) in
  in_index key (values self) = false
  /\ index_of (values self') = index_of (values self) ++ [key]
  /\ auto_keyed (values self')
  /\ NoDup (index_of (values self')).
Proof.
  intros Hauto key self'. subst self'. rewrite add_signal_run.
  cbn [snd values set_values]. fold key. unfold auto_keyed in Hauto.
  assert (Hidx : forall r,
            index_of (values self ++ [(key, r)])
            = auto_keys (S (List.length (values self)))).
  { intro r. unfold index_of in *. rewrite map_app. cbn [map fst].
    now rewrite auto_keys_succ, Hauto. }
  assert (Hfresh : in_index key (values self) = false).
  { destruct (in_index key (values self)) eqn:Hin; [|reflexivity].
    apply in_index_In in Hin. rewrite Hauto in Hin.
    exfalso. revert Hin. apply auto_keys_fresh. lia. }
  split; [exact Hfresh|].
  split; [unfold index_of; rewrite map_app; reflexivity|].
  split.
  - unfold auto_keyed. rewrite Hidx, length_app. cbn [List.length].
    f_equal. lia.
  - rewrite Hidx. apply auto_keys_NoDup.
Qed.

End AutoKeys.

(** A third signal added to the table of [two_signals], which holds [f0]
    and [f1]: the key is [f2]. *)
Lemma auto_keys_unique_without_deletion_witness :
  let self' := snd (add_signal demo_amp_conversion 5%Q None None
                      false false false true None two_signals) in
  in_index "f2" (values two_signals) = false
  /\ index_of (values self') = index_of (values two_signals) ++ ["f2"%string]
  /\ auto_keyed (values self')
  /\ NoDup (index_of (values self')).
Proof.
  apply (auto_keys_unique_without_deletion demo_amp_conversion 5%Q None None
           false false false true two_signals).
  reflexivity.
Defined.

Lemma operator_not_digit (c : ascii) : is_operator c = true -> is_digit c = false.
Proof.
  unfold is_operator. rewrite !orb_true_iff, !Ascii.eqb_eq.
  intros [[[->| ->]| ->]| ->]; reflexivity.
Qed.

(** How the fit classifies keys: an automatic key [f<N>] is an independent
    signal, and a key with an operator after its first character is a
    combination. *)
Theorem isindep_keys :
  (forall n, isindep ("f" ++ format_nat n)%string = true)
  /\ (forall c rest, has_operator rest = true -> isindep (String c rest) = false).
Proof.
  split.
  - intro n. cbn [append isindep].
    pose proof (format_nat_nonempty n) as Hne.
    destruct (format_nat n) eqn:Hf; [congruence|].
    rewrite <- Hf. apply string_of_uint_digits.
  - intros c rest Hop. cbn [isindep].
    destruct rest as [|x rest]; [discriminate Hop|].
    unfold has_operator in Hop. apply existsb_exists in Hop.
    destruct Hop as (y & Hy & Hyop).
    apply not_true_is_false. intro Hall.
    rewrite forallb_forall in Hall. specialize (Hall y Hy).
    rewrite (operator_not_digit y Hyop) in Hall. discriminate Hall.
Qed.

(** The combination [f1+f2] is not an independent key. *)
Lemma isindep_keys_witness : isindep "f1+f2" = false.
Proof. apply (proj2 isindep_keys "f"%char "1+f2"). reflexivity. Defined.

(** ** Deleting *)

Section Deleting.
Context {num : Type}.


End Deleting.


(** ** Fitting nothing *)

Section FitNothing.
Context {num W : Type} `{Num num} `{Trig num}.
Variable amp_conversion : num.
Variable freq_conversion : num.
Variable tshift : num.
Variable set_order : list string -> list string.
Variable model_fit :
  list string -> list num -> Parameters num -> list num
  -> result (ModelResult num).
Variable to_periodogram : series num -> list num -> list num.
Variable combine_first : table num -> table num -> result (table num).
Variable _update_freq_dropdown : table num -> M W unit.
Variable _update_signal_markers : table num -> M W unit.
Variable _update_lc_display : Pyriod num -> M W unit.

Lemma included_none (t : table num) :
  (forall kr, In kr t -> include (snd kr) = false) -> included t = [].
Proof.
  intro Hex. unfold included, index_of.
  induction t as [|kr t IH]; [reflexivity|]. cbn.
  rewrite (Hex kr (or_introl eq_refl)). apply IH.
  intros kr' Hin. apply Hex. now right.
Qed.

(** With no entry included in the fit, the empty table among the cases,
    [fit_model] returns at once: nothing is raised, whatever the solver
    would do, and the object and its widgets are as before. *)
Theorem fit_model_nothing_included (g : Gui.state num W) :
  (forall kr, In kr (values (Gui.obj g)) -> include (snd kr) = false) ->
  Gui.fit_model amp_conversion freq_conversion tshift set_order model_fit
    to_periodogram combine_first _update_freq_dropdown _update_signal_markers
    _update_lc_display g
  = (Ok tt, g).
Proof.
  intro Hex. unfold Gui.fit_model. rewrite bind_get.
  now rewrite (included_none _ Hex).
Qed.

End FitNothing.

(** A table whose single entry is excluded, and a solver that would raise. *)
Lemma fit_model_nothing_included_witness :
  gui_perform raising_fit Gui.FitModel excluded_gui = (Ok tt, excluded_gui).
Proof.
  apply fit_model_nothing_included.
  intros kr [<-|[]]. reflexivity.
Defined.

(** ** Combining frames *)

Section Pandas.
Context {num : Type}.
Variable isnull : num -> bool.

Lemma fill_row_nil (r : row num) : fill_row isnull r [] = r.
Proof.
  destruct r as [i f ff [fe|] a fa [ae|] p fp [pe|]];
    unfold fill_row, fill_cell, fill_err; cbn;
    repeat match goal with
           | |- context [if isnull ?x then _ else _] => destruct (isnull x)
           end;
    reflexivity.
Qed.

Lemma fill_row_same (r : row num) : fill_row isnull r [r] = r.
Proof.
  destruct r as [i f ff [fe|] a fa [ae|] p fp [pe|]];
    unfold fill_row, fill_cell, fill_err; cbn;
    repeat match goal with
           | |- context [if isnull ?x then _ else _] => destruct (isnull x)
           end;
    reflexivity.
Qed.

(** A row without a null cell is kept whatever the other frame holds. *)
Lemma fill_row_complete (r : row num) (rb : list (row num)) :
  complete isnull r = true -> fill_row isnull r rb = r.
Proof.
  destruct r as [i f ff [fe|] a fa [ae|] p fp [pe|]];
    unfold complete, fill_row, fill_cell, fill_err; cbn;
    repeat match goal with
           | |- context [isnull ?x] => destruct (isnull x)
           end;
    cbn; intro Hc; try discriminate Hc; reflexivity.
Qed.

Lemma rows_at_app (key : string) (t1 t2 : table num) :
  rows_at key (t1 ++ t2) = rows_at key t1 ++ rows_at key t2.
Proof. unfold rows_at. now rewrite filter_app, map_app. Qed.

Lemma rows_at_absent (key : string) (t : table num) :
  ~ In key (index_of t) -> rows_at key t = [].
Proof.
  unfold rows_at, index_of. induction t as [|[k r] t IH]; [reflexivity|].
  cbn. intro Hn. destruct (String.eqb_spec key k) as [->|Hne].
  - exfalso. apply Hn. now left.
  - apply IH. intro Hin. apply Hn. now right.
Qed.

Lemma rows_at_In (key : string) (r : row num) (t : table num) :
  In r (rows_at key t) -> In key (index_of t).
Proof.
  unfold rows_at, index_of. intro Hin.
  apply in_map_iff in Hin. destruct Hin as ([k r'] & _ & Hin).
  apply filter_In in Hin. destruct Hin as [Hin Hk]. cbn in Hk.
  apply String.eqb_eq in Hk. subst k.
  apply in_map_iff. exists (key, r'). split; [reflexivity|exact Hin].
Qed.

Lemma rows_at_unique (key : string) (t : table num) :
  NoDup (index_of t) -> In key (index_of t) ->
  exists r, rows_at key t = [r].
Proof.
  unfold index_of. induction t as [|[k r] t IH]; intros Hnd Hin; [destruct Hin|].
  cbn [map fst] in Hnd, Hin. inversion Hnd as [|? ? Hk Hnd']; subst.
  change (rows_at key ((k, r) :: t))
    with (rows_at key ([(k, r)] ++ t)).
  rewrite rows_at_app. unfold rows_at at 1. cbn.
  destruct (String.eqb_spec key k) as [->|Hne].
  - exists r. cbn. now rewrite (rows_at_absent k t Hk).
  - cbn. apply IH; [exact Hnd'|]. destruct Hin as [Heq|Hin]; [congruence|exact Hin].
Qed.

Lemma rows_at_short (key : string) (t : table num) :
  NoDup (index_of t) ->
  rows_at key t = [] \/ exists r, rows_at key t = [r].
Proof.
  intro Hnd. destruct (in_dec string_dec key (index_of t)) as [Hin|Hn].
  - right. now apply rows_at_unique.
  - left. now apply rows_at_absent.
Qed.

(** A list of rows under one label. *)
Lemma rows_at_labelled (key k : string) (l : table num) :
  (forall kr, In kr l -> fst kr = k) ->
  rows_at key l = if String.eqb key k then map snd l else [].
Proof.
  intro Hl. unfold rows_at. induction l as [|[k' r] l IH].
  - now destruct (String.eqb key k).
  - assert (Hk : k' = k) by exact (Hl (k', r) (or_introl eq_refl)).
    subst k'.
    pose proof (IH (fun kr' Hin => Hl kr' (or_intror Hin))) as IH'.
    cbn [filter fst]. destruct (String.eqb key k); cbn [map snd];
      [now rewrite IH'|exact IH'].
Qed.

Lemma rows_at_flat_map (f : string -> table num) (U : list string)
  (key : string) :
  (forall k kr, In kr (f k) -> fst kr = k) ->
  NoDup U ->
  rows_at key (flat_map f U)
  = if in_dec string_dec key U then map snd (f key) else [].
Proof.
  intros Hf. induction U as [|k U IH]; intro Hnd; [reflexivity|].
  inversion Hnd as [|? ? Hk Hnd']; subst.
  cbn [flat_map]. rewrite rows_at_app, (rows_at_labelled key k) by apply Hf.
  rewrite (IH Hnd').
  destruct (String.eqb_spec key k) as [->|Hne].
  - destruct (in_dec string_dec k (k :: U)) as [_|Hn];
      [|exfalso; apply Hn; now left].
    destruct (in_dec string_dec k U) as [Hin|_]; [contradiction|].
    apply app_nil_r.
  - cbn [app].
    destruct (in_dec string_dec key U) as [Hin|Hn];
      destruct (in_dec string_dec key (k :: U)) as [Hin'|Hn'];
      try reflexivity.
    + exfalso. apply Hn'. now right.
    + exfalso. destruct Hin' as [Heq|Hin']; [congruence|contradiction].
Qed.

Lemma index_flat_map_In (f : string -> table num) (U : list string)
  (key : string) :
  (forall k kr, In kr (f k) -> fst kr = k) ->
  In key (index_of (flat_map f U)) -> In key U.
Proof.
  intros Hf Hin. unfold index_of in Hin.
  apply in_map_iff in Hin. destruct Hin as (kr & <- & Hin).
  apply in_flat_map in Hin. destruct Hin as (k & Hk & Hin).
  now rewrite (Hf k kr Hin).
Qed.

Lemma index_flat_map_NoDup (f : string -> table num) (U : list string) :
  (forall k kr, In kr (f k) -> fst kr = k) ->
  (forall k, List.length (f k) <= 1) ->
  NoDup U -> NoDup (index_of (flat_map f U)).
Proof.
  intros Hf Hlen. induction U as [|k U IH]; intro Hnd; [constructor|].
  inversion Hnd as [|? ? Hk Hnd']; subst. cbn [flat_map].
  unfold index_of. rewrite map_app. fold (index_of (flat_map f U)).
  pose proof (Hlen k) as Hk1. pose proof (Hf k) as Hfk.
  destruct (f k) as [|kr [|kr' l]]; cbn in Hk1; [| |lia].
  - now apply IH.
  - cbn. constructor; [|now apply IH].
    rewrite (Hfk kr (or_introl eq_refl)).
    intro Hin. apply Hk. now apply (index_flat_map_In f U k Hf).
Qed.

(** *** The stand-in *)

Lemma insert_label_perm (k : string) (l : list string) :
  Permutation (insert_label k l) (k :: l).
Proof.
  induction l as [|k' l IH]; cbn; [reflexivity|].
  destruct (String.leb k k'); [reflexivity|].
  rewrite IH. apply perm_swap.
Qed.

Lemma sort_labels_perm (l : list string) : Permutation (sort_labels l) l.
Proof.
  unfold sort_labels. induction l as [|k l IH]; cbn; [reflexivity|].
  rewrite insert_label_perm. now constructor.
Qed.

Lemma label_union_In (la lb : list string) (k : string) :
  In k (label_union la lb) <-> In k la \/ In k lb.
Proof.
  unfold label_union.
  destruct (list_eq_dec string_dec la lb) as [->|Hne]; [tauto|].
  destruct la as [|a la], lb as [|b lb]; cbn [In]; try tauto.
  rewrite (Permutation_in' (eq_refl k) (sort_labels_perm _)).
  rewrite nodup_In, in_app_iff. reflexivity.
Qed.

Lemma label_union_NoDup (la lb : list string) :
  NoDup la -> NoDup lb -> NoDup (label_union la lb).
Proof.
  intros Ha Hb. unfold label_union.
  destruct (list_eq_dec string_dec la lb) as [->|Hne]; [exact Hb|].
  destruct la as [|a la], lb as [|b lb]; try assumption.
  apply (Permutation_NoDup (Permutation_sym (sort_labels_perm _))).
  apply NoDup_nodup.
Qed.

(** The stand-in of the examples is a [combine_first] of this kind. *)
Lemma sorted_combine_first_pandas :
  pandas_combine_first isnull (sorted_combine_first isnull).
Proof.
  intros a b c Hc Ha Hb. unfold sorted_combine_first in Hc.
  destruct (has_dups (index_of a) || has_dups (index_of b));
    [discriminate Hc|].
  injection Hc as <-.
  set (f := fun k : string =>
              match rows_at k a, rows_at k b with
              | r :: _, rb => [(k, fill_row isnull r rb)]
              | [], rb :: _ => [(k, rb)]
              | [], [] => []
              end).
  assert (Hf : forall k kr, In kr (f k) -> fst kr = k).
  { intros k kr. unfold f.
    destruct (rows_at k a) as [|r ra]; [destruct (rows_at k b) as [|rb rbs]|];
      cbn; intro Hin; try destruct Hin as [<-|[]]; try destruct Hin;
      reflexivity. }
  assert (Hlen : forall k, List.length (f k) <= 1).
  { intro k. unfold f.
    destruct (rows_at k a) as [|r ra]; [destruct (rows_at k b) as [|rb rbs]|];
      cbn; lia. }
  pose proof (label_union_NoDup _ _ Ha Hb) as HU.
  split; [now apply index_flat_map_NoDup|].
  intro key. rewrite (rows_at_flat_map f _ key Hf HU).
  destruct (in_dec string_dec key (label_union (index_of a) (index_of b)))
    as [Hin|Hn].
  - unfold f. destruct (rows_at key a) as [|r ra]; [|reflexivity].
    destruct (rows_at_short key b Hb) as [->|[rb ->]]; reflexivity.
  - rewrite label_union_In in Hn.
    rewrite (rows_at_absent key a), (rows_at_absent key b) by tauto.
    reflexivity.
Qed.

End Pandas.

(** ** The frequency of a combination *)

Section GuiCombinationFrequency.
Context {num W : Type} `{Num num} `{Trig num}.
Variable amp_conversion : num.
Variable nyq : num.
Variable freq_conversion : num.
Variable interpls : num -> result num.
Variable subfreq : num -> num -> num.
Variable str : num -> string.
Variable eval : Gui.scope num -> string -> M (Gui.state num W) num.
Variable set_order : list string -> list string.
Variable to_periodogram : series num -> list num -> list num.
Variable combine_first : table num -> table num -> result (table num).
Variable _update_freq_dropdown : table num -> M W unit.
Variable _update_signal_markers : table num -> M W unit.
Variable _update_lc_display : Pyriod num -> M W unit.
Variable describe_changes : table num -> table num -> result unit.
Variable isnull : num -> bool.

Local Abbreviation combination_frequency' :=
  (Gui.combination_frequency str eval set_order).
Local Abbreviation add_combination' :=
  (Gui.add_combination amp_conversion nyq interpls subfreq str eval
     set_order combine_first _update_freq_dropdown _update_signal_markers).
Local Abbreviation _update_values_from_qgrid' :=
  (Gui._update_values_from_qgrid amp_conversion freq_conversion
     to_periodogram _update_signal_markers _update_lc_display).
Local Abbreviation _qgrid_changed_manually' :=
  (Gui._qgrid_changed_manually amp_conversion freq_conversion to_periodogram
     combine_first _update_signal_markers _update_lc_display
     describe_changes).

(** After the table has been read back from the widget it is the converted
    frame, whatever the recomputation of the series and the widgets do
    afterwards. *)
Lemma gui_update_values_from_qgrid_values (g : Gui.state num W) :
  values (Gui.obj (snd (_update_values_from_qgrid' g)))
  = _convert_qgrid_to_values amp_conversion (Gui.signals_qgrid_df g).
Proof.
  unfold Gui._update_values_from_qgrid. rewrite bind_get.
  unfold bind at 1. rewrite on_obj_run. cbn [fst snd modify_values].
  set (t := _convert_qgrid_to_values amp_conversion (Gui.signals_qgrid_df g)).
  apply (maintains_bind
           (fun g' : Gui.state num W => values (Gui.obj g') = t));
    [ apply (maintains_on_obj (fun self => values self = t)),
        update_lcs_values
    | intros _
    | reflexivity ].
  apply maintains_bind; [apply maintains_get|intro].
  apply maintains_bind;
    [apply (maintains_on_widgets (fun self => values self = t))|intros _].
  apply maintains_bind;
    [apply (maintains_on_widgets (fun self => values self = t))|intros _].
  apply (maintains_on_obj (fun self => values self = t)), update_pers_values.
Qed.

Lemma rows_at_displayframe (key : string) (t : table num) :
  rows_at key (Gui.displayframe amp_conversion t)
  = map (fun r => set_amp (nmul (amp r) amp_conversion) r) (rows_at key t).
Proof.
  exact (rows_at_map
           (fun _ r => set_amp (nmul (amp r) amp_conversion) r) key t).
Qed.

Lemma index_of_displayframe (t : table num) :
  index_of (Gui.displayframe amp_conversion t) = index_of t.
Proof.
  unfold index_of, Gui.displayframe. rewrite map_map. reflexivity.
Qed.

Lemma rows_at_appended (key : string) (r : row num) (t : table num) :
  in_index key t = false -> rows_at key (t ++ [(key, r)]) = [r].
Proof.
  intro Hfresh. rewrite rows_at_app, rows_at_absent.
  - unfold rows_at. cbn. now rewrite String.eqb_refl.
  - intro Hin. apply in_index_In in Hin. congruence.
Qed.

Lemma NoDup_appended (key : string) (r : row num) (t : table num) :
  NoDup (index_of t) -> in_index key t = false ->
  NoDup (index_of (t ++ [(key, r)])).
Proof.
  intros Hnd Hfresh. unfold index_of. rewrite map_app. cbn [map fst].
  apply NoDup_rev in Hnd. rewrite <- (rev_involutive (_ ++ _)).
  apply NoDup_rev. rewrite rev_app_distr. cbn.
  constructor; [|exact Hnd].
  rewrite <- in_rev. intro Hin. apply in_index_In in Hin. congruence.
Qed.


End GuiCombinationFrequency.



(** ** Convergence *)

Section GuiConvergence.
Context {num W : Type} `{Num num} `{Trig num}.
Variable amp_conversion : num.
Variable freq_conversion : num.
Variable tshift : num.
Variable set_order : list string -> list string.
Variable to_periodogram : series num -> list num -> list num.
Variable combine_first : table num -> table num -> result (table num).
Variable _update_freq_dropdown : table num -> M W unit.
Variable _update_signal_markers : table num -> M W unit.
Variable _update_lc_display : Pyriod num -> M W unit.
Variable isnull : num -> bool.

Local Abbreviation fit_model' :=
  (fun model_fit =>
     Gui.fit_model amp_conversion freq_conversion tshift set_order model_fit
       to_periodogram combine_first _update_freq_dropdown
       _update_signal_markers _update_lc_display).
Local Abbreviation prepare_fit' :=
  (Gui.prepare_fit freq_conversion tshift set_order).
Local Abbreviation _update_values_from_fit' :=
  (Gui._update_values_from_fit amp_conversion freq_conversion tshift
     to_periodogram combine_first _update_freq_dropdown
     _update_signal_markers _update_lc_display).
Local Abbreviation normalized_at' :=
  (normalized_at freq_conversion tshift).

(** [fit_model] call by call. *)
Lemma fit_model_run
  (model_fit : list string -> list num -> Parameters num -> list num
               -> result (ModelResult num))
  (g : Gui.state num W) :
  fit_model' model_fit g
  = match included (values (Gui.obj g)) with
    | [] => (Ok tt, g)
    | _ :: _ =>
        match prepare_fit' (Gui.obj g) (included (values (Gui.obj g))) with
        | Raise e => (Raise e, g)
        | Ok c =>
            match model_fit (Gui.fit_model_names c) (Gui.fit_data c)
                    (Gui.fit_params c) (Gui.fit_x c) with
            | Raise e => (Raise e, g)
            | Ok r1 =>
                match release_freqs (values (Gui.obj g))
                        (included (values (Gui.obj g))) (Gui.fit_prefixmap c)
                        (params r1) with
                | Raise e => (Raise e, g)
                | Ok ps2 =>
                    match model_fit (Gui.fit_model_names c) (Gui.fit_data c)
                            ps2 (Gui.fit_x c) with
                    | Raise e => (Raise e, g)
                    | Ok r2 =>
                        _update_values_from_fit' (params r2)
                          (Gui.fit_prefixmap c) g
                    end
                end
            end
        end
    end.
Proof.
  unfold Gui.fit_model. rewrite bind_get. cbv zeta.
  destruct (included (values (Gui.obj g))) as [|k ks]; [reflexivity|].
  rewrite bind_lift. destruct (Gui.prepare_fit _ _ _ _ _) as [c|e];
    [|reflexivity].
  rewrite bind_lift. destruct (model_fit _ _ (Gui.fit_params c) _) as [r1|e];
    [|reflexivity].
  rewrite bind_lift. destruct (release_freqs _ _ _ _) as [ps2|e];
    [|reflexivity].
  rewrite bind_lift. destruct (model_fit _ _ ps2 _) as [r2|e]; reflexivity.
Qed.

Lemma included_index (t : table num) (k : string) :
  In k (included t) -> In k (index_of t).
Proof.
  unfold included, index_of. intro Hin.
  apply in_map_iff in Hin. destruct Hin as (kr & <- & Hin).
  apply filter_In in Hin. apply in_map. tauto.
Qed.

Lemma index_of_committed (ps : Parameters num)
  (prefixmap : list (string * string)) (ks : list string) (t : table num) :
  index_of (committed freq_conversion tshift ps prefixmap ks t) = index_of t.
Proof.
  unfold index_of, committed. rewrite map_map. apply map_ext.
  intros [k r]. cbn [fst]. destruct (existsb _ ks); reflexivity.
Qed.

Lemma index_of_convert_to_qgrid (t : table num) :
  index_of (_convert_values_to_qgrid amp_conversion t) = index_of t.
Proof.
  unfold index_of, _convert_values_to_qgrid. rewrite map_map. reflexivity.
Qed.

(** The loop of [_update_values_from_fit] on a table without repeated
    labels, when every included entry has all its parameters. *)
Lemma update_loop_run (ps : Parameters num)
  (prefixmap : list (string * string)) (self : Pyriod num) :
  NoDup (index_of (values self)) ->
  (forall k, In k (included (values self)) ->
     exists v, fitted_values ps prefixmap k = Ok v) ->
  Gui.update_loop freq_conversion tshift ps prefixmap self
  = (Ok tt,
     set_values
       (committed freq_conversion tshift ps prefixmap
          (included (values self)) (values self))
       self).
Proof.
  intros Hnd Hfits. unfold Gui.update_loop. rewrite bind_get.
  rewrite (for_each_update_entry freq_conversion tshift ps prefixmap _ self).
  - rewrite (fold_loc_set (normalized_at' ps prefixmap))
      by apply normalized_at_idempotent.
    reflexivity.
  - intros k Hk. apply rows_at_unique; [exact Hnd|].
    now apply included_index.
  - exact Hfits.
Qed.

(** [_update_values_from_fit] step by step, after such a loop. *)
Lemma update_values_from_fit_run (ps : Parameters num)
  (prefixmap : list (string * string)) (g : Gui.state num W) :
  NoDup (index_of (values (Gui.obj g))) ->
  (forall k, In k (included (values (Gui.obj g))) ->
     exists v, fitted_values ps prefixmap k = Ok v) ->
  let t1 := committed freq_conversion tshift ps prefixmap
              (included (values (Gui.obj g))) (values (Gui.obj g)) in
  let self1 := set_values t1 (Gui.obj g) in
  _update_values_from_fit' ps prefixmap g
  = match _update_freq_dropdown t1 (Gui.widgets g) with
    | (Raise e, w1) => (Raise e, Gui.mkState self1 (Gui.signals_qgrid_df g) w1)
    | (Ok _, w1) =>
        match combine_first (_convert_values_to_qgrid amp_conversion t1)
                (Gui.signals_qgrid_df g) with
        | Raise e => (Raise e, Gui.mkState self1 (Gui.signals_qgrid_df g) w1)
        | Ok df' =>
            Gui._update_values_from_qgrid amp_conversion freq_conversion
              to_periodogram _update_signal_markers _update_lc_display
              (Gui.mkState self1 df' w1)
        end
    end.
Proof.
  intros Hnd Hfits. cbv zeta.
  unfold Gui._update_values_from_fit. unfold bind at 1.
  rewrite on_obj_run, (update_loop_run ps prefixmap _ Hnd Hfits).
  cbn [fst snd].
  rewrite bind_get. cbn [Gui.obj Gui.signals_qgrid_df values set_values].
  unfold bind at 1. rewrite on_widgets_run. cbn [Gui.widgets Gui.obj fst snd].
  destruct (_update_freq_dropdown _ (Gui.widgets g)) as [[u|e] w1];
    cbn [fst snd]; [|reflexivity].
  rewrite bind_lift. cbn [Gui.signals_qgrid_df].
  destruct (combine_first _ _) as [df'|e]; reflexivity.
Qed.

(** What [_update_values_from_fit] leaves in the table, however it ends:
    the included entries are all normalised, and if the call got as far as
    reading the table back from the widget, and so whenever it returns,
    they have all been through the units of the widget and back. *)
Lemma update_values_from_fit_rows (ps : Parameters num)
  (prefixmap : list (string * string)) (g : Gui.state num W) :
  pandas_combine_first isnull combine_first ->
  NoDup (index_of (values (Gui.obj g))) ->
  NoDup (index_of (Gui.signals_qgrid_df g)) ->
  (forall k, In k (included (values (Gui.obj g))) ->
     exists v, fitted_values ps prefixmap k = Ok v) ->
  (forall k r, In k (included (values (Gui.obj g))) ->
     rows_at k (values (Gui.obj g)) = [r] ->
     complete isnull
       (to_display amp_conversion (normalized_at' ps prefixmap k r)) = true) ->
  let out := _update_values_from_fit' ps prefixmap g in
  let t' := values (Gui.obj (snd out)) in
  let read_back :=
    forall k r, In k (included (values (Gui.obj g))) ->
      rows_at k (values (Gui.obj g)) = [r] ->
      rows_at k t'
      = [from_display amp_conversion
           (to_display amp_conversion (normalized_at' ps prefixmap k r))] in
  ((forall k r, In k (included (values (Gui.obj g))) ->
      rows_at k (values (Gui.obj g)) = [r] ->
      rows_at k t' = [normalized_at' ps prefixmap k r])
   \/ read_back)
  /\ (fst out = Ok tt -> read_back).
Proof.
  intros Hpandas Hnd Hnd_df Hfits Hcomplete. cbv zeta.
  rewrite (update_values_from_fit_run ps prefixmap g Hnd Hfits).
  set (incl := included (values (Gui.obj g))) in *.
  set (t1 := committed freq_conversion tshift ps prefixmap incl
               (values (Gui.obj g))).
  assert (Hloop : forall k r, In k incl ->
            rows_at k (values (Gui.obj g)) = [r] ->
            rows_at k t1 = [normalized_at' ps prefixmap k r]).
  { intros k r Hk Hr. unfold t1. now rewrite rows_at_committed, Hr. }
  destruct (_update_freq_dropdown t1 (Gui.widgets g)) as [[u|e] w1];
    [|split; [left; exact Hloop|intro Hr; discriminate Hr]].
  destruct (combine_first (_convert_values_to_qgrid amp_conversion t1)
              (Gui.signals_qgrid_df g)) as [df'|e] eqn:Hcf;
    [|split; [left; exact Hloop|intro Hr; discriminate Hr]].
  assert (Hback : forall k r, In k incl ->
            rows_at k (values (Gui.obj g)) = [r] ->
            rows_at k
              (values (Gui.obj (snd
                 (Gui._update_values_from_qgrid amp_conversion
                    freq_conversion to_periodogram _update_signal_markers
                    _update_lc_display
                    (Gui.mkState (set_values t1 (Gui.obj g)) df' w1)))))
            = [from_display amp_conversion
                 (to_display amp_conversion (normalized_at' ps prefixmap k r))]).
  { intros k r Hk Hr.
    rewrite gui_update_values_from_qgrid_values. cbn [Gui.signals_qgrid_df].
    destruct (Hpandas _ _ _ Hcf) as [_ Hrows].
    - unfold t1. now rewrite index_of_convert_to_qgrid, index_of_committed.
    - exact Hnd_df.
    - rewrite rows_at_convert_to_values, Hrows, rows_at_convert_to_qgrid.
      rewrite (Hloop k r Hk Hr). cbn [map].
      change (set_amperr _ (set_amp _ (normalized_at' ps prefixmap k r)))
        with (to_display amp_conversion (normalized_at' ps prefixmap k r)).
      rewrite (fill_row_complete isnull _ _ (Hcomplete k r Hk Hr)).
      reflexivity. }
  split; [right; exact Hback|intros _; exact Hback].
Qed.

(** C5, as the code has it.  [fit_model] never looks at the convergence
    report of the solver: it behaves as it would with a solver that always
    reports convergence.  When either of its two solver calls raises, the
    exception goes to the caller and nothing has been changed.  When both
    return, the parameters of the second are written to the table whatever
    it reports.  If no label is repeated and every included entry has all
    its parameters, none of them null, then however the call ends every
    included entry is normalised, and when the call returns every one of
    them has also been through the units of the widget and back. *)
Theorem fit_model_ignores_convergence
  (model_fit : list string -> list num -> Parameters num -> list num
               -> result (ModelResult num))
  (g : Gui.state num W) :
  let self := Gui.obj g in
  let prefixes := included (values self) in
  fit_model' (reporting_success model_fit) g = fit_model' model_fit g
  /\ (forall c e,
        prefixes <> [] ->
        prepare_fit' self prefixes = Ok c ->
        model_fit (Gui.fit_model_names c) (Gui.fit_data c) (Gui.fit_params c)
          (Gui.fit_x c) = Raise e ->
        fit_model' model_fit g = (Raise e, g))
  /\ (forall c r1 ps2 e,
        prefixes <> [] ->
        prepare_fit' self prefixes = Ok c ->
        model_fit (Gui.fit_model_names c) (Gui.fit_data c) (Gui.fit_params c)
          (Gui.fit_x c) = Ok r1 ->
        release_freqs (values self) prefixes (Gui.fit_prefixmap c) (params r1)
        = Ok ps2 ->
        model_fit (Gui.fit_model_names c) (Gui.fit_data c) ps2 (Gui.fit_x c)
        = Raise e ->
        fit_model' model_fit g = (Raise e, g))
  /\ (forall c r1 ps2 r2,
        prefixes <> [] ->
        prepare_fit' self prefixes = Ok c ->
        model_fit (Gui.fit_model_names c) (Gui.fit_data c) (Gui.fit_params c)
          (Gui.fit_x c) = Ok r1 ->
        release_freqs (values self) prefixes (Gui.fit_prefixmap c) (params r1)
        = Ok ps2 ->
        model_fit (Gui.fit_model_names c) (Gui.fit_data c) ps2 (Gui.fit_x c)
        = Ok r2 ->
        pandas_combine_first isnull combine_first ->
        NoDup (index_of (values self)) ->
        NoDup (index_of (Gui.signals_qgrid_df g)) ->
        (forall k, In k prefixes ->
           exists v, fitted_values (params r2) (Gui.fit_prefixmap c) k = Ok v) ->
        (forall k r, In k prefixes -> rows_at k (values self) = [r] ->
           complete isnull
             (to_display amp_conversion
                (normalized_at' (params r2) (Gui.fit_prefixmap c) k r))
           = true) ->
        let out := fit_model' model_fit g in
        let t' := values (Gui.obj (snd out)) in
        let read_back :=
          forall k r, In k prefixes -> rows_at k (values self) = [r] ->
            rows_at k t'
            = [from_display amp_conversion
                 (to_display amp_conversion
                    (normalized_at' (params r2) (Gui.fit_prefixmap c) k r))] in
        ((forall k r, In k prefixes -> rows_at k (values self) = [r] ->
            rows_at k t'
            = [normalized_at' (params r2) (Gui.fit_prefixmap c) k r])
         \/ read_back)
        /\ (fst out = Ok tt -> read_back)).
Proof.
  cbv zeta. split; [|split; [|split]].
  - rewrite !fit_model_run.
    destruct (included (values (Gui.obj g))) as [|k ks]; [reflexivity|].
    destruct (Gui.prepare_fit _ _ _ _ _) as [c|e]; [|reflexivity].
    unfold reporting_success.
    destruct (model_fit _ _ (Gui.fit_params c) _) as [r1|e]; [|reflexivity].
    cbn [params].
    destruct (release_freqs _ _ _ _) as [ps2|e]; [|reflexivity].
    destruct (model_fit _ _ ps2 _) as [r2|e]; reflexivity.
  - intros c e Hne Hprep Hfit1. rewrite fit_model_run, Hprep, Hfit1.
    destruct (included (values (Gui.obj g))); [contradiction|reflexivity].
  - intros c r1 ps2 e Hne Hprep Hfit1 Hrel Hfit2.
    rewrite fit_model_run, Hprep, Hfit1, Hrel, Hfit2.
    destruct (included (values (Gui.obj g))); [contradiction|reflexivity].
  - intros c r1 ps2 r2 Hne Hprep Hfit1 Hrel Hfit2 Hpandas Hnd Hnd_df Hfits
      Hcomplete.
    rewrite fit_model_run, Hprep, Hfit1, Hrel, Hfit2.
    destruct (included (values (Gui.obj g))) as [|k0 ks] eqn:Hincl;
      [contradiction|].
    rewrite <- Hincl in *.
    exact (update_values_from_fit_rows (params r2) (Gui.fit_prefixmap c) g
             Hpandas Hnd Hnd_df Hfits Hcomplete).
Qed.

End GuiConvergence.

(** C5 fails on the code.  The solver double [stalled_fit] reports that it
    did not converge.  The call returns normally all the same, and the
    three frequencies in the table have moved. *)
Lemma fit_commits_unconverged_result :
  let outcome := gui_perform stalled_fit Gui.FitModel three_signals in
  (forall model data ps x,
     exists r, stalled_fit model data ps x = Ok r /\ success r = false)
  /\ freq_column (values (Gui.obj three_signals))
     = [("f0", 1%Q); ("f1", 3%Q); ("f2", 5%Q)]
  /\ (~ exists e, outcome = (Raise e, three_signals))
  /\ fst outcome = Ok tt
  /\ freq_column (values (Gui.obj (snd outcome)))
     = [("f0", (3 # 2)%Q); ("f1", (7 # 2)%Q); ("f2", (11 # 2)%Q)].
Proof.
  cbv zeta. repeat split; try (vm_compute; reflexivity).
  - intros. eexists. split; reflexivity.
  - intros [e He]. apply (f_equal fst) in He. vm_compute in He. discriminate He.
Qed.

(** A solver that returns on the first call and raises on the second: the
    exception reaches the caller, and the state is the one before the
    call.  And a solver that returns twice without converging: the entry
    [f1] of [three_signals], fitted, normalised and read back. *)
Lemma fit_model_ignores_convergence_witness :
  gui_perform fit_once Gui.FitModel three_signals
  = (Raise ValueError, three_signals)
  /\ rows_at "f1"
       (values (Gui.obj (snd (gui_perform stalled_fit Gui.FitModel
                                three_signals))))
     = [mkRow true (7 # 2)%Q false (Some (1 # 100)%Q) (501 # 1000)%Q false
          (Some (1 # 100)%Q) (3 # 4)%Q false (Some (1 # 100)%Q)].
Proof.
  split.
  - destruct (fit_model_ignores_convergence demo_amp_conversion
                demo_freq_conversion demo_tshift demo_set_order
                demo_to_periodogram (sorted_combine_first Q_isnull)
                accepting accepting accepting Q_isnull fit_once three_signals)
      as (_ & _ & Hsecond & _).
    eapply Hsecond.
    + vm_compute. discriminate.
    + vm_compute. reflexivity.
    + vm_compute. reflexivity.
    + vm_compute. reflexivity.
    + vm_compute. reflexivity.
  - destruct (fit_model_ignores_convergence demo_amp_conversion
                demo_freq_conversion demo_tshift demo_set_order
                demo_to_periodogram (sorted_combine_first Q_isnull)
                accepting accepting accepting Q_isnull stalled_fit
                three_signals)
      as (_ & _ & _ & Hboth).
    edestruct Hboth as [_ Hreturned].
    + vm_compute. discriminate.
    + vm_compute. reflexivity.
    + vm_compute. reflexivity.
    + vm_compute. reflexivity.
    + vm_compute. reflexivity.
    + apply sorted_combine_first_pandas.
    + vm_compute. repeat constructor; cbn; intuition discriminate.
    + vm_compute. repeat constructor; cbn; intuition discriminate.
    + intros k Hk. vm_compute in Hk.
      destruct Hk as [<-|[<-|[<-|[]]]]; eexists; vm_compute; reflexivity.
    + intros k r Hk Hr. vm_compute in Hk.
      destruct Hk as [<-|[<-|[<-|[]]]]; vm_compute in Hr;
        injection Hr as <-; vm_compute; reflexivity.
    + exact (Hreturned eq_refl "f1"%string
               (mkRow true 3%Q false None (1 # 1000)%Q false None (1 # 2)%Q
                  false None)
               (or_intror (or_introl eq_refl)) eq_refl).
Defined.

(** The update is not all-or-nothing when the solver returns no standard
    errors: the loop writes the frequency of the first entry and then
    raises, so the call fails with the table half updated. *)
Lemma fit_without_errors_updates_partially :
  let outcome := gui_perform fit_without_errors Gui.FitModel three_signals in
  fst outcome = Raise TypeError
  /\ freq_column (values (Gui.obj (snd outcome)))
     = [("f0", (3 # 2)%Q); ("f1", 3%Q); ("f2", 5%Q)].
Proof. cbv zeta. split; vm_compute; reflexivity. Qed.

(** ** Rectification on doubles *)

(** C6 on the code's doubles.  A fit outcome with amplitude -0.25 and
    phase 0.7 at frequency 0.1, for data whose mean time is 2.0: the loop
    of [_update_values_from_fit] stores the amplitude 0.25, and the phase
    it stores is (0.7 - 0.5) + (-2.0 * 0.1 * 1.0), a negative number of
    size 2^-54, taken modulo 1, which on doubles is exactly 1.0.  The
    stored phase is not below 1. *)
Lemma rectified_phase_reaches_one :
  let out := Gui.update_loop Binary64.freq_conversion Binary64.tshift
               Binary64.outcome [("f0", "f0")]%string Binary64.observed in
  fst out = Ok tt
  /\ loc "f0" amp (values (snd out)) = Ok (Binary64.decimal 25 2)
  /\ loc "f0" phase (values (snd out)) = Ok (Binary64.float_of_Z 1)
  /\ (exists p, loc "f0" phase (values (snd out)) = Ok p
                /\ nltb p (of_Z 1) = false).
Proof.
  cbv zeta. repeat split; try (vm_compute; reflexivity).
  eexists. split; vm_compute; reflexivity.
Qed.

(** ** What a fit never changes *)

Section FlagsKept.
Context {num W : Type} `{Num num} `{Trig num}.
Variable amp_conversion : num.
Variable freq_conversion : num.
Variable tshift : num.
Variable set_order : list string -> list string.
Variable to_periodogram : series num -> list num -> list num.
Variable combine_first : table num -> table num -> result (table num).
Variable _update_freq_dropdown : table num -> M W unit.
Variable _update_signal_markers : table num -> M W unit.
Variable _update_lc_display : Pyriod num -> M W unit.
Variable isnull : num -> bool.

Lemma flag_column_loc_set (key : string) (f : row num -> row num)
  (t : table num) :
  (forall r, (include (f r), fixfreq (f r), fixamp (f r), fixphase (f r))
             = (include r, fixfreq r, fixamp r, fixphase r)) ->
  flag_column (loc_set key f t) = flag_column t.
Proof.
  intro Hf. unfold flag_column, loc_set. rewrite map_map. apply map_ext.
  intros [k r]. cbn [fst snd]. destruct (String.eqb key k); [|reflexivity].
  cbn [fst snd]. now rewrite Hf.
Qed.

Lemma flags_modify_values x (key : string) (f : row num -> row num) :
  (forall r, (include (f r), fixfreq (f r), fixamp (f r), fixphase (f r))
             = (include r, fixfreq r, fixamp r, fixphase r)) ->
  maintains (fun s : Pyriod num => flag_column (values s) = x)
    (modify_values (loc_set key f)).
Proof.
  intros Hf self Hs.
  change (flag_column (loc_set key f (values self)) = x).
  now rewrite flag_column_loc_set.
Qed.

Lemma flags_update_entry x (ps : Parameters num)
  (prefixmap : list (string * string)) (prefix : string) :
  maintains (fun s : Pyriod num => flag_column (values s) = x)
    (update_entry freq_conversion tshift ps prefixmap prefix).
Proof.
  unfold update_entry.
  repeat first
    [ apply maintains_lift
    | apply maintains_ret
    | apply flags_modify_values; intro; reflexivity
    | apply maintains_read_values
    | apply maintains_bind; [|intro]
    | match goal with |- maintains _ (if ?b then _ else _) => destruct b end ].
Qed.

(** The loop of [_update_values_from_fit] writes numbers only, wherever it
    stops: the keys, their order and the flags of every row stay. *)
Lemma flags_update_loop (ps : Parameters num)
  (prefixmap : list (string * string)) (self : Pyriod num) :
  flag_column
    (values (snd (Gui.update_loop freq_conversion tshift ps prefixmap self)))
  = flag_column (values self).
Proof.
  unfold Gui.update_loop. rewrite bind_get.
  apply (maintains_for_each
           (fun s : Pyriod num => flag_column (values s) = flag_column (values self))).
  - intro k. apply flags_update_entry.
  - reflexivity.
Qed.

Lemma flags_at_flag_column (key : string) (t : table num) :
  flags_at key t
  = map snd (filter (fun kf => String.eqb key (fst kf)) (flag_column t)).
Proof.
  unfold flags_at, rows_at, flag_column.
  induction t as [|[k r] t IH]; [reflexivity|]. cbn.
  destruct (String.eqb key k); cbn; now rewrite IH.
Qed.

Lemma index_of_flag_column (t : table num) :
  map fst (flag_column t) = index_of t.
Proof. unfold flag_column, index_of. rewrite map_map. reflexivity. Qed.

Lemma flags_fill_row (r : row num) (rb : list (row num)) :
  (include (fill_row isnull r rb), fixfreq (fill_row isnull r rb),
   fixamp (fill_row isnull r rb), fixphase (fill_row isnull r rb))
  = (include r, fixfreq r, fixamp r, fixphase r).
Proof. reflexivity. Qed.

Lemma flags_at_convert_to_values (key : string) (t : table num) :
  flags_at key (_convert_qgrid_to_values amp_conversion t) = flags_at key t.
Proof.
  unfold flags_at. rewrite rows_at_convert_to_values, map_map. reflexivity.
Qed.

Lemma flags_at_convert_to_qgrid (key : string) (t : table num) :
  flags_at key (_convert_values_to_qgrid amp_conversion t) = flags_at key t.
Proof.
  unfold flags_at. rewrite rows_at_convert_to_qgrid, map_map. reflexivity.
Qed.

Lemma flags_update_values_from_fit (ps : Parameters num)
  (prefixmap : list (string * string)) (g : Gui.state num W) :
  pandas_combine_first isnull combine_first ->
  NoDup (index_of (values (Gui.obj g))) ->
  NoDup (index_of (Gui.signals_qgrid_df g)) ->
  (forall k, In k (index_of (Gui.signals_qgrid_df g)) ->
     In k (index_of (values (Gui.obj g)))) ->
  forall key,
    flags_at key
      (values (Gui.obj (snd
         (Gui._update_values_from_fit amp_conversion freq_conversion tshift
            to_periodogram combine_first _update_freq_dropdown
            _update_signal_markers _update_lc_display ps prefixmap g))))
    = flags_at key (values (Gui.obj g)).
Proof.
  intros Hpandas Hnd Hnd_df Hsub key.
  unfold Gui._update_values_from_fit. unfold bind at 1. rewrite on_obj_run.
  pose proof (flags_update_loop ps prefixmap (Gui.obj g)) as Hflags.
  destruct (Gui.update_loop freq_conversion tshift ps prefixmap (Gui.obj g))
    as [[u|e] self1]; cbn [fst snd Gui.obj] in *.
  2:{ now rewrite !flags_at_flag_column, Hflags. }
  assert (Hkeep : flags_at key (values self1)
                  = flags_at key (values (Gui.obj g)))
    by now rewrite !flags_at_flag_column, Hflags.
  assert (Hidx : index_of (values self1) = index_of (values (Gui.obj g)))
    by now rewrite <- !index_of_flag_column, Hflags.
  rewrite bind_get. cbn [Gui.obj Gui.signals_qgrid_df].
  unfold bind at 1. rewrite on_widgets_run. cbn [Gui.widgets Gui.obj fst snd].
  destruct (_update_freq_dropdown (values self1) (Gui.widgets g))
    as [[u'|e] w1]; cbn [fst snd]; [|exact Hkeep].
  rewrite bind_lift. cbn [Gui.signals_qgrid_df].
  destruct (combine_first (_convert_values_to_qgrid amp_conversion
                             (values self1))
              (Gui.signals_qgrid_df g)) as [df'|e] eqn:Hcf; [|exact Hkeep].
  unfold bind at 1, Gui.set_df. cbn [Gui.obj Gui.widgets].
  rewrite gui_update_values_from_qgrid_values. cbn [Gui.signals_qgrid_df].
  rewrite flags_at_convert_to_values, <- Hkeep.
  destruct (Hpandas _ _ _ Hcf) as [_ Hrows].
  { now rewrite index_of_convert_to_qgrid, Hidx. }
  { exact Hnd_df. }
  rewrite <- (flags_at_convert_to_qgrid key (values self1)).
  unfold flags_at at 1 2. rewrite Hrows.
  destruct (rows_at_short key (_convert_values_to_qgrid amp_conversion
                                 (values self1))) as [Hnone|[r Hone]].
  { now rewrite index_of_convert_to_qgrid, Hidx. }
  - rewrite Hnone. rewrite (rows_at_absent key (Gui.signals_qgrid_df g));
      [reflexivity|].
    intro Hin. apply Hsub in Hin. rewrite <- Hidx in Hin.
    rewrite <- (index_of_convert_to_qgrid amp_conversion (values self1))
      in Hin.
    destruct (rows_at_unique key _
                ltac:(now rewrite index_of_convert_to_qgrid, Hidx) Hin)
      as [r Hr].
    congruence.
  - rewrite Hone. reflexivity.
Qed.

(** A fit changes numbers only.  Whether [fit_model] returns or raises,
    and whatever the solver does, the rows of the table under every key
    have the [include] flag and the three fixed flags they had, and no key
    has come or gone.  No label is repeated in the table or in the frame
    of the widget, and the frame has no label that the table lacks. *)
Theorem fit_model_keeps_keys_and_flags
  (model_fit : list string -> list num -> Parameters num -> list num
               -> result (ModelResult num))
  (g : Gui.state num W) :
  pandas_combine_first isnull combine_first ->
  NoDup (index_of (values (Gui.obj g))) ->
  NoDup (index_of (Gui.signals_qgrid_df g)) ->
  (forall k, In k (index_of (Gui.signals_qgrid_df g)) ->
     In k (index_of (values (Gui.obj g)))) ->
  let g' := snd (Gui.fit_model amp_conversion freq_conversion tshift
                   set_order model_fit to_periodogram combine_first
                   _update_freq_dropdown _update_signal_markers
                   _update_lc_display g) in
  forall key,
    flags_at key (values (Gui.obj g')) = flags_at key (values (Gui.obj g)).
Proof.
  intros Hpandas Hnd Hnd_df Hsub. cbv zeta. intro key.
  rewrite fit_model_run.
  destruct (included (values (Gui.obj g))) as [|k ks]; [reflexivity|].
  destruct (Gui.prepare_fit _ _ _ _ _) as [c|e]; [|reflexivity].
  destruct (model_fit _ _ (Gui.fit_params c) _) as [r1|e]; [|reflexivity].
  destruct (release_freqs _ _ _ _) as [ps2|e]; [|reflexivity].
  destruct (model_fit _ _ ps2 _) as [r2|e]; [|reflexivity].
  now apply flags_update_values_from_fit.
Qed.

End FlagsKept.

(** The three signals of [three_signals], fitted with a solver that moves
    every number: the flags of [f1] stay. *)
Lemma fit_model_keeps_keys_and_flags_witness :
  flags_at "f1"
    (values (Gui.obj (snd (gui_perform stalled_fit Gui.FitModel
                             three_signals))))
  = flags_at "f1" (values (Gui.obj three_signals)).
Proof.
  apply (fit_model_keeps_keys_and_flags demo_amp_conversion
           demo_freq_conversion demo_tshift demo_set_order
           demo_to_periodogram (sorted_combine_first Q_isnull)
           accepting accepting accepting Q_isnull stalled_fit three_signals).
  - apply sorted_combine_first_pandas.
  - vm_compute. repeat constructor; cbn; intuition discriminate.
  - vm_compute. repeat constructor; cbn; intuition discriminate.
  - intros k Hk. vm_compute in Hk. vm_compute. exact Hk.
Defined.


(** ** The model series *)

Section ModelSeries.
Context {num : Type} `{Num num} `{Trig num}.
Variable amp_conversion : num.
Variable freq_conversion : num.
Variable to_periodogram : series num -> list num -> list num.

Lemma loc_map {A} (key : string) (col : row num -> A) (t : table num) :
  loc key col t
  = match map col (rows_at key t) with
    | [x] => Ok x
    | [] => Raise KeyError
    | _ => Raise TypeError
    end.
Proof. unfold loc. destruct (rows_at key t) as [|r [|r' l]]; reflexivity. Qed.

Lemma rows_at_signal_column (key : string) (t : table num) :
  map (fun r => (freq r, amp r, phase r)) (rows_at key t)
  = map snd (filter (fun kx => String.eqb key (fst kx)) (signal_column t)).
Proof.
  unfold rows_at, signal_column.
  induction t as [|[k r] t IH]; [reflexivity|].
  cbn [map filter fst snd]. destruct (String.eqb key k); cbn [map snd];
    now rewrite IH.
Qed.

Lemma loc_signal_column (key : string) (t1 t2 : table num) :
  signal_column t1 = signal_column t2 ->
  loc key freq t1 = loc key freq t2
  /\ loc key amp t1 = loc key amp t2
  /\ loc key phase t1 = loc key phase t2.
Proof.
  intro Ht.
  pose proof (rows_at_signal_column key t1) as H1.
  rewrite Ht, <- rows_at_signal_column in H1.
  rewrite !loc_map.
  replace (map freq (rows_at key t1)) with (map freq (rows_at key t2)).
  replace (map amp (rows_at key t1)) with (map amp (rows_at key t2)).
  replace (map phase (rows_at key t1)) with (map phase (rows_at key t2)).
  - repeat split.
  - apply (f_equal (map snd)) in H1. rewrite !map_map in H1.
    symmetry. exact H1.
  - apply (f_equal (map (fun x : num * num * num => snd (fst x)))) in H1.
    rewrite !map_map in H1. symmetry. exact H1.
  - apply (f_equal (map (fun x : num * num * num => fst (fst x)))) in H1.
    rewrite !map_map in H1. symmetry. exact H1.
Qed.

Lemma add_signals_signal_column (t1 t2 : table num) (prefixes : list string)
  (sampled observed : series num) :
  signal_column t1 = signal_column t2 ->
  add_signals freq_conversion t1 prefixes sampled observed
  = add_signals freq_conversion t2 prefixes sampled observed.
Proof.
  intro Ht. revert sampled observed.
  induction prefixes as [|prefix rest IH]; intros sampled observed;
    [reflexivity|].
  cbn [add_signals].
  destruct (loc_signal_column prefix t1 t2 Ht) as (-> & -> & ->).
  destruct (loc prefix freq t2), (loc prefix amp t2), (loc prefix phase t2);
    try reflexivity.
  apply IH.
Qed.

Lemma add_signals_time (t : table num) (prefixes : list string)
  (sampled observed : series num) :
  let so := snd (add_signals freq_conversion t prefixes sampled observed) in
  time (fst so) = time sampled /\ time (snd so) = time observed.
Proof.
  cbv zeta. revert sampled observed.
  induction prefixes as [|prefix rest IH]; intros sampled observed.
  - split; reflexivity.
  - cbn [add_signals].
    destruct (loc prefix freq t), (loc prefix amp t), (loc prefix phase t);
      try (split; reflexivity).
    destruct (IH (add_sine sampled (nmul a freq_conversion) a0 a1)
                 (add_sine observed (nmul a freq_conversion) a0 a1))
      as [Hs Ho].
    rewrite Hs, Ho. split; reflexivity.
Qed.

(** The model series are built from every row of the table, whether it is
    included or not, and from its frequency, amplitude and phase only: the
    outcome of [_update_lcs] and the series it leaves are the same for two
    tables with the same keys and the same three numbers in each row. *)
Theorem update_lcs_reads_signals_only (t : table num) (self : Pyriod num) :
  signal_column t = signal_column (values self) ->
  _update_lcs freq_conversion (set_values t self)
  = (fst (_update_lcs freq_conversion self),
     set_values t (snd (_update_lcs freq_conversion self))).
Proof.
  intro Ht.
  assert (Hidx : index_of t = index_of (values self)).
  { apply (f_equal (map fst)) in Ht. unfold signal_column in Ht.
    rewrite !map_map in Ht. exact Ht. }
  unfold _update_lcs. rewrite !bind_get. cbv zeta.
  cbn [values set_values lc_orig lc_model_sampled lc_model_observed lc_resid].
  rewrite Hidx, (add_signals_signal_column t (values self)) by exact Ht.
  destruct (fst (add_signals _ _ _ _ _)); reflexivity.
Qed.

(** Reading the same frame twice is the same as reading it once: the
    second call of [_update_values_from_qgrid] returns or raises as the
    first did and leaves the object as the first left it. *)
Theorem update_values_from_qgrid_idempotent (df : table num)
  (self : Pyriod num) :
  let once := _update_values_from_qgrid amp_conversion freq_conversion
                to_periodogram df self in
  _update_values_from_qgrid amp_conversion freq_conversion to_periodogram df
    (snd once) = once.
Proof.
  cbv zeta. destruct self as [orig sampled observed resid fs po pm pr t].
  set (t' := _convert_qgrid_to_values amp_conversion df).
  set (base := nadd (of_Z 0) (mean (flux orig))).
  set (s0 := mkSeries (time sampled) (map (fun _ => base) (time sampled))).
  set (o0 := mkSeries (time observed) (map (fun _ => base) (time orig))).
  set (looped := add_signals freq_conversion t' (index_of t') s0 o0).
  assert (Hrun : forall sampled' observed' resid' pm' pr' t0,
    time sampled' = time sampled ->
    time observed' = time observed ->
    _update_values_from_qgrid amp_conversion freq_conversion to_periodogram df
      (mkPyriod orig sampled' observed' resid' fs po pm' pr' t0)
    = match fst looped with
      | Ok _ =>
          let resid1 :=
            mkSeries (time orig)
              (map (fun xy => nsub (fst xy) (snd xy))
                   (combine (flux orig) (flux (snd (snd looped))))) in
          (Ok tt,
           mkPyriod orig (fst (snd looped)) (snd (snd looped)) resid1 fs po
             (map (fun p => nmul p amp_conversion)
                  (to_periodogram (snd (snd looped)) fs))
             (map (fun p => nmul p amp_conversion)
                  (to_periodogram resid1 fs))
             t')
      | Raise e =>
          (Raise e,
           mkPyriod orig (fst (snd looped)) (snd (snd looped)) resid' fs po
             pm' pr' t')
      end).
  { intros sampled' observed' resid' pm' pr' t0 Hs Ho.
    unfold _update_values_from_qgrid, modify_values, _update_lcs,
      _update_pers, bind, get, put, lift, raise.
    cbn [values set_values lc_orig lc_model_sampled lc_model_observed
         lc_resid set_models fst snd].
    rewrite Hs, Ho. subst looped t' base s0 o0.
    destruct (fst (add_signals _ _ _ _ _)); reflexivity. }
  rewrite (Hrun sampled observed resid pm pr t eq_refl eq_refl).
  destruct (add_signals_time t' (index_of t') s0 o0) as [Hs Ho].
  fold looped in Hs, Ho. cbn [time s0 o0] in Hs, Ho.
  destruct (fst looped) as [u|e] eqn:Hfst; cbn [snd].
  - rewrite (Hrun _ _ _ _ _ _ Hs Ho). reflexivity.
  - rewrite (Hrun _ _ _ _ _ _ Hs Ho). reflexivity.
Qed.

End ModelSeries.

(** [two_signals] with its second row excluded. *)
Lemma update_lcs_reads_signals_only_witness :
  lc_model_observed
    (snd (_update_lcs demo_freq_conversion
            (set_values
               (loc_set "f1"
                  (fun r => mkRow false (freq r) (fixfreq r) (freqerr r)
                              (amp r) (fixamp r) (amperr r) (phase r)
                              (fixphase r) (phaseerr r))
                  (values two_signals))
               two_signals)))
  = lc_model_observed (snd (_update_lcs demo_freq_conversion two_signals)).
Proof.
  rewrite (update_lcs_reads_signals_only demo_freq_conversion _ two_signals).
  - reflexivity.
  - vm_compute. reflexivity.
Defined.

(** The constructor and the recomputation agree: the model series, the
    residuals and the two derived periodograms that [__init__] leaves are
    the ones that reading back the empty table computes, so that call
    returns and changes nothing. *)
Theorem construct_agrees_with_recomputation (time flux : list Q)
  (freq_conversion oversample_factor amp_conversion : Q)
  (to_periodogram : series Q -> list Q -> list Q) (c : constructed) :
  construct time flux freq_conversion oversample_factor amp_conversion
    to_periodogram = Some c ->
  _update_values_from_qgrid amp_conversion freq_conversion to_periodogram []
    (object c)
  = (Ok tt, object c).
Proof.
  unfold construct.
  destruct (Grid.build_grid time freq_conversion oversample_factor) as [g|];
    [|discriminate].
  intro Hc. injection Hc as <-. reflexivity.
Qed.

Lemma construct_agrees_with_recomputation_witness :
  _update_values_from_qgrid demo_amp_conversion demo_freq_conversion
    demo_to_periodogram [] demo
  = (Ok tt, demo).
Proof.
  apply (construct_agrees_with_recomputation [0; 1; 2; 3]%Q [0; 1; 0; -1]%Q
           demo_freq_conversion 2%Q demo_amp_conversion demo_to_periodogram
           (mkConstructed demo demo_tshift (1 # 3)%Q demo_nyq)).
  vm_compute. reflexivity.
Defined.

(** ** Clicks and drags on the periodogram *)

Section CanvasFacts.
Context {Obj E : Type}.
Variable onclick : E -> M Obj unit.

Lemma deliver_app (evs1 evs2 : list (canvas_event E)) (ms : mouse * Obj) :
  deliver onclick (evs1 ++ evs2) ms
  = deliver onclick evs2 (deliver onclick evs1 ms).
Proof. apply fold_left_app. Qed.

Lemma deliver_pressed (g : list (canvas_event E)) (m : bool) (s : Obj) :
  existsb is_release g = false ->
  deliver onclick g (mkMouse true m, s)
  = (mkMouse true (m || existsb is_motion g), s).
Proof.
  revert m. induction g as [|ev g IH]; intros m Hg.
  - cbn. now rewrite orb_false_r.
  - cbn [existsb] in Hg. apply orb_false_iff in Hg as [Hev Hg].
    destruct ev as [e|e|e]; [| |discriminate Hev].
    + change (deliver onclick g (mkMouse true m, s)
              = (mkMouse true (m || existsb is_motion g), s)).
      now apply IH.
    + change (deliver onclick g (mkMouse true true, s)
              = (mkMouse true (m || (true || existsb is_motion g)), s)).
      rewrite IH by assumption. now rewrite orb_true_r.
Qed.

Lemma deliver_idle (g : list (canvas_event E)) (m : bool) (s : Obj) :
  existsb is_release g = false ->
  deliver onclick g (mkMouse false m, s)
  = match after_press g with
    | Some rest => (mkMouse true (m || existsb is_motion rest), s)
    | None => (mkMouse false m, s)
    end.
Proof.
  induction g as [|ev g IH]; intro Hg; [reflexivity|].
  cbn [existsb] in Hg. apply orb_false_iff in Hg as [Hev Hg].
  destruct ev as [e|e|e]; [| |discriminate Hev].
  - change (deliver onclick g (mkMouse true m, s)
            = (mkMouse true (m || existsb is_motion g), s)).
    now apply deliver_pressed.
  - change (deliver onclick g (mkMouse false m, s)
            = match after_press g with
              | Some rest => (mkMouse true (m || existsb is_motion rest), s)
              | None => (mkMouse false m, s)
              end).
    now apply IH.
Qed.

(** A release is a click exactly when the button went down since the last
    release and the pointer did not move afterwards; a drag, or a release
    with no press before it, leaves the object as it is.  When the click
    handler raises, [onrelease] stops before it resets the flags, so the
    button stays marked as pressed. *)
Theorem release_clicks_unless_dragged (g : list (canvas_event E)) (e : E)
  (s : Obj) :
  existsb is_release g = false ->
  deliver onclick (g ++ [button_release_event e]) (mkMouse false false, s)
  = if still_press g
    then match onclick e s with
         | (Ok _, s') => (mkMouse false false, s')
         | (Raise _, s') => (mkMouse true false, s')
         end
    else (mkMouse false false, s).
Proof.
  intro Hg. rewrite deliver_app, (deliver_idle g false s Hg).
  unfold still_press. destruct (after_press g) as [rest|]; [|reflexivity].
  cbn [orb]. destruct (existsb is_motion rest); [reflexivity|].
  cbn [negb]. unfold deliver. cbn [fold_left dispatch].
  unfold onrelease. rewrite bind_get. cbn [fst _press _move andb negb].
  unfold bind, on_object. cbn [snd fst].
  destruct (onclick e s) as [[u|ex] s']; reflexivity.
Qed.

End CanvasFacts.

(** A press and a release at 0.4 on [demo_line], snapping with tolerance
    0.3: the marker goes to the peak at 0.5. *)
Lemma release_clicks_unless_dragged_witness :
  snd (deliver (set_marker true (3 # 10) demo_line demo_interpls)
         ([button_press_event (2 # 5)%Q] ++ [button_release_event (2 # 5)%Q])
         (mkMouse false false, (0%Q, None)))
  = ((1 # 2)%Q, Some 3%Q).
Proof.
  pose proof (release_clicks_unless_dragged
                (set_marker true (3 # 10) demo_line demo_interpls)
                [button_press_event (2 # 5)%Q] (2 # 5)%Q (0%Q, None) eq_refl)
    as Hclick.
  apply (f_equal snd) in Hclick. exact Hclick.
Defined.

(** ** Snapping to a peak *)

Lemma argwhere_from_In {A} (p : A -> bool) (l : list A) (i j : nat) :
  In j (argwhere_from p i l)
  <-> exists a, (i <= j)%nat /\ nth_error l (j - i) = Some a /\ p a = true.
Proof.
  revert i. induction l as [|a l IH]; intro i; cbn [argwhere_from].
  - split; [intros []|]. intros (a & _ & Hn & _).
    destruct (j - i)%nat; discriminate Hn.
  - assert (Htail : In j (argwhere_from p (S i) l)
                    <-> exists b, (i < j)%nat
                                  /\ nth_error (a :: l) (j - i) = Some b
                                  /\ p b = true).
    { rewrite IH. split; intros (b & Hij & Hn & Hp); exists b;
        (split; [lia|split; [|exact Hp]]).
      - replace (j - i)%nat with (S (j - S i)) by lia. exact Hn.
      - replace (j - i)%nat with (S (j - S i)) in Hn by lia. exact Hn. }
    destruct (p a) eqn:Hpa.
    + cbn [In]. rewrite Htail. split.
      * intros [<-|(b & Hij & Hn & Hp)].
        -- exists a. rewrite Nat.sub_diag. repeat split; [lia|exact Hpa].
        -- exists b. repeat split; [lia|exact Hn|exact Hp].
      * intros (b & Hij & Hn & Hp).
        destruct (Nat.eq_dec i j) as [Heq|Hne]; [left; exact Heq|right].
        exists b. repeat split; [lia|exact Hn|exact Hp].
    + rewrite Htail. split; intros (b & Hij & Hn & Hp).
      * exists b. repeat split; [lia|exact Hn|exact Hp].
      * exists b. split; [|split; [exact Hn|exact Hp]].
        destruct (Nat.eq_dec i j) as [Heq|Hne]; [|lia].
        subst j. rewrite Nat.sub_diag in Hn. injection Hn as <-. congruence.
Qed.

Lemma argwhere_from_none {A} (p : A -> bool) (l : list A) (i : nat) :
  Forall (fun a => p a = false) l -> argwhere_from p i l = [].
Proof.
  intro Hl. revert i. induction Hl as [|a l Ha _ IH]; intro i; [reflexivity|].
  cbn [argwhere_from]. rewrite Ha. apply IH.
Qed.

Lemma increasing_tail (a : Q) (l : list Q) :
  Grid.increasing (a :: l) -> Grid.increasing l.
Proof. destruct l as [|b l]; [intros _; exact I|]. intros [_ Hl]. exact Hl. Qed.

Lemma increasing_above (a : Q) (l : list Q) :
  Grid.increasing (a :: l) -> Forall (fun b => a < b)%Q l.
Proof.
  revert a. induction l as [|b l IH]; intros a Hl; [constructor|].
  destruct Hl as [Hab Hl]. constructor; [exact Hab|].
  apply IH in Hl. eapply Forall_impl; [|exact Hl].
  intros c Hc. cbv beta in *. lra.
Qed.

(** On a line whose frequencies increase, the points near a frequency are
    next to each other. *)
Lemma argwhere_from_run (x tol : Q) (line : list point) (i : nat) :
  Grid.increasing (map fst line) ->
  Forall (fun pt => x - tol <= fst pt)%Q line ->
  argwhere_from (near x tol) i line
  = seq i (List.length (argwhere_from (near x tol) i line)).
Proof.
  revert i. induction line as [|pt line IH]; intros i Hinc Hlo; [reflexivity|].
  cbn [argwhere_from]. inversion Hlo as [|? ? Hpt Hline]; subst.
  cbn [map] in Hinc.
  destruct (near x tol pt) eqn:Hnear.
  - cbn [List.length seq]. f_equal.
    apply IH; [exact (increasing_tail _ _ Hinc)|exact Hline].
  - rewrite argwhere_from_none; [reflexivity|].
    apply increasing_above in Hinc. rewrite Forall_map in Hinc.
    eapply Forall_impl; [|exact Hinc]. intros q Hq. cbv beta in Hq.
    unfold near in *. apply andb_false_iff in Hnear.
    apply andb_false_iff. right.
    destruct Hnear as [Hn|Hn].
    + apply Qle_bool_iff in Hpt. congruence.
    + destruct (Qle_bool (fst q) (x + tol)) eqn:Hq'; [|reflexivity].
      apply Qle_bool_iff in Hq'.
      assert (Hc : (fst pt <= x + tol)%Q) by lra.
      apply Qle_bool_iff in Hc. congruence.
Qed.

Lemma argwhere_contiguous (x tol : Q) (line : list point) (i : nat) :
  Grid.increasing (map fst line) ->
  argwhere_from (near x tol) i line
  = seq (hd 0%nat (argwhere_from (near x tol) i line))
        (List.length (argwhere_from (near x tol) i line)).
Proof.
  revert i. induction line as [|pt line IH]; intros i Hinc; [reflexivity|].
  cbn [argwhere_from]. cbn [map] in Hinc.
  destruct (near x tol pt) eqn:Hnear.
  - cbn [hd List.length seq]. f_equal.
    apply argwhere_from_run; [exact (increasing_tail _ _ Hinc)|].
    apply increasing_above in Hinc. rewrite Forall_map in Hinc.
    eapply Forall_impl; [|exact Hinc]. intros q Hq. cbv beta in Hq.
    unfold near in Hnear. apply andb_true_iff in Hnear as [Hn _].
    apply Qle_bool_iff in Hn. lra.
  - apply IH. exact (increasing_tail _ _ Hinc).
Qed.

Lemma nanargmax_from_spec (l : list (option Q)) (best : option (nat * Q))
  (i : nat) :
  match nanargmax_from best i l with
  | Some (k, v) =>
      (best = Some (k, v)
       \/ ((i <= k)%nat /\ nth_error l (k - i) = Some (Some v)))
      /\ (forall b, best = Some b -> snd b <= v)%Q
      /\ (forall j w, nth_error l j = Some (Some w) -> w <= v)%Q
  | None => best = None /\ Forall (fun y => y = None) l
  end.
Proof.
  revert best i. induction l as [|y l IH]; intros best i.
  - cbn [nanargmax_from]. destruct best as [[k v]|].
    + split; [left; reflexivity|]. split.
      * intros b Hb. injection Hb as <-. cbn. lra.
      * intros [|j] w Hw; discriminate Hw.
    + split; [reflexivity|constructor].
  - destruct y as [y|]; cbn [nanargmax_from].
    + destruct best as [[kb b]|].
      * destruct (Qle_bool y b) eqn:Hyb.
        -- specialize (IH (Some (kb, b)) (S i)).
           destruct (nanargmax_from (Some (kb, b)) (S i) l) as [[k v]|].
           ++ destruct IH as (Hwhere & Hbest & Hmax).
              split; [|split].
              ** destruct Hwhere as [Hb|[Hk Hn]]; [left; exact Hb|right].
                 split; [lia|].
                 replace (k - i)%nat with (S (k - S i)) by lia. exact Hn.
              ** exact Hbest.
              ** intros [|j] w Hw.
                 --- injection Hw as <-. apply Qle_bool_iff in Hyb.
                     specialize (Hbest _ eq_refl). cbn in Hbest. lra.
                 --- exact (Hmax j w Hw).
           ++ destruct IH as [Hb _]. discriminate Hb.
        -- specialize (IH (Some (i, y)) (S i)).
           destruct (nanargmax_from (Some (i, y)) (S i) l) as [[k v]|].
           ++ destruct IH as (Hwhere & Hbest & Hmax).
              specialize (Hbest _ eq_refl). cbn in Hbest.
              assert (Hby : (b < y)%Q).
              { apply Qnot_le_lt. intro Hc. apply Qle_bool_iff in Hc.
                congruence. }
              split; [|split].
              ** right. destruct Hwhere as [Hb|[Hk Hn]].
                 --- injection Hb as <- <-. split; [lia|].
                     rewrite Nat.sub_diag. reflexivity.
                 --- split; [lia|].
                     replace (k - i)%nat with (S (k - S i)) by lia. exact Hn.
              ** intros b0 Hb0. injection Hb0 as <-. cbn. lra.
              ** intros [|j] w Hw.
                 --- injection Hw as <-. exact Hbest.
                 --- exact (Hmax j w Hw).
           ++ destruct IH as [Hb _]. discriminate Hb.
      * specialize (IH (Some (i, y)) (S i)).
        destruct (nanargmax_from (Some (i, y)) (S i) l) as [[k v]|].
        -- destruct IH as (Hwhere & Hbest & Hmax).
           specialize (Hbest _ eq_refl). cbn in Hbest.
           split; [|split].
           ++ right. destruct Hwhere as [Hb|[Hk Hn]].
              ** injection Hb as <- <-. split; [lia|].
                 rewrite Nat.sub_diag. reflexivity.
              ** split; [lia|].
                 replace (k - i)%nat with (S (k - S i)) by lia. exact Hn.
           ++ intros b0 Hb0. discriminate Hb0.
           ++ intros [|j] w Hw.
              ** injection Hw as <-. exact Hbest.
              ** exact (Hmax j w Hw).
        -- destruct IH as [Hb _]. discriminate Hb.
    + specialize (IH best (S i)).
      destruct (nanargmax_from best (S i) l) as [[k v]|].
      * destruct IH as (Hwhere & Hbest & Hmax).
        split; [|split].
        -- destruct Hwhere as [Hb|[Hk Hn]]; [left; exact Hb|right].
           split; [lia|].
           replace (k - i)%nat with (S (k - S i)) by lia. exact Hn.
        -- exact Hbest.
        -- intros [|j] w Hw; [discriminate Hw|exact (Hmax j w Hw)].
      * destruct IH as [Hb Hl]. split; [exact Hb|]. constructor; [reflexivity|exact Hl].
Qed.

Lemma near_spec (x tol : Q) (pt : point) :
  near x tol pt = true <-> (x - tol <= fst pt /\ fst pt <= x + tol)%Q.
Proof.
  unfold near. rewrite andb_true_iff, !Qle_bool_iff. reflexivity.
Qed.

Lemma nearby_In (x tol : Q) (line : list point) (j : nat) :
  In j (argwhere (near x tol) line)
  <-> exists pt, nth_error line j = Some pt /\ near x tol pt = true.
Proof.
  unfold argwhere. rewrite argwhere_from_In, Nat.sub_0_r.
  split; intros (pt & H); exists pt; [tauto|].
  split; [lia|tauto].
Qed.

Lemma ydata_at (line : list point) (j : nat) (pt : point) :
  nth_error line j = Some pt ->
  nth j (map fst line) 0%Q = fst pt /\ nth j (map snd line) None = snd pt.
Proof.
  intro Hj. split.
  - change 0%Q with (fst ((0%Q, None) : point)). rewrite map_nth.
    now rewrite (nth_error_nth _ _ _ Hj).
  - change (@None Q) with (snd ((0%Q, None) : point)). rewrite map_nth.
    now rewrite (nth_error_nth _ _ _ Hj).
Qed.

(** Snapping to a peak.  On a line whose frequencies increase, a click
    with a point of the line within the tolerance whose height is a number
    puts the marker on a point of the line: one within the tolerance of the
    click, with a height that is a number and at least the height of every
    other such point. *)
Theorem snap_to_peak (line : list point) (tolerance xdata : Q) :
  Grid.increasing (map fst line) ->
  (exists f y, In (f, Some y) line
               /\ (xdata - tolerance <= f /\ f <= xdata + tolerance)%Q) ->
  exists f y,
    snap line tolerance xdata = Ok (f, Some y)
    /\ In (f, Some y) line
    /\ (xdata - tolerance <= f /\ f <= xdata + tolerance)%Q
    /\ forall f' y',
         In (f', Some y') line ->
         (xdata - tolerance <= f' /\ f' <= xdata + tolerance)%Q ->
         (y' <= y)%Q.
Proof.
  intros Hinc (f0 & y0 & Hin0 & Hnear0).
  pose proof (argwhere_contiguous xdata tolerance line 0 Hinc) as Hrun.
  fold (argwhere (near xdata tolerance) line) in Hrun.
  unfold snap, nanargmax.
  set (nearby := argwhere (near xdata tolerance) line) in *.
  set (ys := map (fun i => nth i (map snd line) None) nearby).
  assert (Hys : forall f' y',
             In (f', Some y') line ->
             (xdata - tolerance <= f' /\ f' <= xdata + tolerance)%Q ->
             exists m, nth_error ys m = Some (Some y')).
  { intros f' y' Hin Hnear. apply In_nth_error in Hin as [j Hj].
    assert (Hjn : In j nearby).
    { apply nearby_In. exists (f', Some y'). split; [exact Hj|].
      apply near_spec. exact Hnear. }
    apply In_nth_error in Hjn as [m Hm]. exists m. unfold ys.
    rewrite nth_error_map, Hm. cbn [option_map].
    now rewrite (proj2 (ydata_at line j _ Hj)). }
  pose proof (nanargmax_from_spec ys None 0) as Hspec.
  destruct (nanargmax_from None 0 ys) as [[k v]|].
  - destruct Hspec as ([Hnone|[_ Hk]] & _ & Hmax); [discriminate Hnone|].
    rewrite Nat.sub_0_r in Hk. unfold ys in Hk.
    rewrite nth_error_map in Hk.
    destruct (nth_error nearby k) as [j|] eqn:Hj; [|discriminate Hk].
    cbn [option_map] in Hk. injection Hk as Hv.
    assert (Hjn : In j nearby) by exact (nth_error_In _ _ Hj).
    apply nearby_In in Hjn as (pt & Hpt & Hnear).
    assert (Hhigh : (k + hd 0 nearby)%nat = j).
    { assert (Hlt : (k < List.length nearby)%nat).
      { apply nth_error_Some. congruence. }
      pose proof (nth_error_nth _ _ 0%nat Hj) as Hnth.
      rewrite Hrun, seq_nth in Hnth by exact Hlt. lia. }
    rewrite Hhigh.
    destruct (ydata_at line j pt Hpt) as [Hf Hy].
    rewrite Hf, Hy. rewrite Hy in Hv.
    exists (fst pt), v. rewrite Hv.
    assert (Hpt' : pt = (fst pt, Some v)).
    { rewrite <- Hv. now destruct pt. }
    split; [reflexivity|]. split.
    + rewrite <- Hpt'. exact (nth_error_In _ _ Hpt).
    + split; [apply near_spec in Hnear; exact Hnear|].
      intros f' y' Hin Hnear'.
      destruct (Hys f' y' Hin Hnear') as [m Hm]. exact (Hmax m y' Hm).
  - destruct Hspec as [_ Hall]. exfalso.
    destruct (Hys f0 y0 Hin0 Hnear0) as [m Hm].
    apply nth_error_In in Hm.
    rewrite Forall_forall in Hall. specialize (Hall _ Hm). discriminate Hall.
Qed.

(** A click with no point of the line within the tolerance, or only points
    whose height is not a number, raises [ValueError]. *)
Theorem snap_raises_without_peak (line : list point) (tolerance xdata : Q) :
  (forall f y, In (f, Some y) line ->
               ~ (xdata - tolerance <= f /\ f <= xdata + tolerance)%Q) ->
  snap line tolerance xdata = Raise ValueError.
Proof.
  intro Hnone. unfold snap, nanargmax.
  set (nearby := argwhere (near xdata tolerance) line).
  pose proof (nanargmax_from_spec
                (map (fun i => nth i (map snd line) None) nearby) None 0)
    as Hspec.
  destruct (nanargmax_from None 0 _) as [[k v]|]; [|reflexivity].
  exfalso. destruct Hspec as ([Hb|[_ Hk]] & _); [discriminate Hb|].
  rewrite Nat.sub_0_r, nth_error_map in Hk.
  destruct (nth_error nearby k) as [j|] eqn:Hj; [|discriminate Hk].
  cbn [option_map] in Hk. injection Hk as Hv.
  apply nth_error_In, nearby_In in Hj as (pt & Hpt & Hnear).
  rewrite (proj2 (ydata_at line j pt Hpt)) in Hv.
  apply (Hnone (fst pt) v).
  - rewrite <- Hv. replace (fst pt, snd pt) with pt by now destruct pt.
    exact (nth_error_In _ _ Hpt).
  - apply near_spec. exact Hnear.
Qed.

Lemma snap_to_peak_witness :
  exists f y, snap demo_line (3 # 10) (2 # 5) = Ok (f, Some y)
              /\ In (f, Some y) demo_line.
Proof.
  destruct (snap_to_peak demo_line (3 # 10) (2 # 5)) as (f & y & Hs & Hin & _).
  - cbn. repeat split; reflexivity.
  - exists (1 # 4)%Q, 1%Q. split; [cbn; tauto|]. split; discriminate.
  - exists f, y. split; assumption.
Defined.

Lemma snap_raises_without_peak_witness :
  snap demo_line (1 # 10) (1 # 20) = Raise ValueError.
Proof.
  apply snap_raises_without_peak. intros f y Hin [Hlo Hhi].
  cbn in Hin.
  repeat (destruct Hin as [Hin|Hin];
          [injection Hin as <- <- || discriminate Hin|]);
    try contradiction; try (apply Hlo; reflexivity);
    try (apply Hhi; reflexivity).
Defined.

